(** * async-optimizers: golden-section line search and Powell's method

    A shallow embedding of the TypeScript sources

    - [goldenSectionMinimize], of which the repository holds two variants:
      the asynchronous one ([Async]) and the synchronous one kept with
      [minimizeGoldenSection1D] ([Sync]),
    - [minimizeGoldenSection1D], parametric in the golden-section routine and
      in [bracketMinimum], whose module is not among the sources,
    - [minimizePowell] with its local helpers [constrain], [bound] and [fi],
      parametric in the line minimizer it imports,

    and the properties of the specification checked against them.

    JavaScript numbers are IEEE 754 binary64 values: they are modelled by
    Rocq's primitive floats, whose operations are the binary64 ones, so the
    definitions below compute exactly what the program computes.  A value of
    type [number | undefined] is an [option float]; loop counters are
    integers ([Z]), and so are the iteration budgets, the properties on
    budgets being stated for integer budgets ([minimizePowell_with] gives
    the outer loop of [minimizePowell] for a budget that is any number);
    arrays of numbers are lists.  The objective is a function of its
    argument.  A run of [minimizePowell] is modelled with the trace of what
    it does: the points it pushes on [status.points] and the line searches
    it makes. *)

From Stdlib Require Import Floats ZArith List Bool Lia Sorted.
Import ListNotations.

Set Warnings "-inexact-float".

#[local] Open Scope float_scope.

(** ** JavaScript primitives on numbers *)

(** [isFinite(x)] and [isNaN(x)] on a number. *)
Definition isFinite (x : float) : bool := is_finite x.
Definition isNaN (x : float) : bool := is_nan x.

(** [x === -0], told from [+0] by the sign of the reciprocal. *)
Definition is_neg_zero (x : float) : bool := (x =? 0) && (1 / x <? 0).

(** [Math.max(a, b)]: NaN when an argument is NaN, the larger argument
    otherwise, [+0] counting as larger than [-0]. *)
Definition Math_max (a b : float) : float :=
  if is_nan a || is_nan b then nan
  else if a <? b then b
  else if b <? a then a
  else if is_neg_zero a then b else a.

(** [Math.min(a, b)]: NaN when an argument is NaN, the smaller argument
    otherwise, [-0] counting as smaller than [+0]. *)
Definition Math_min (a b : float) : float :=
  if is_nan a || is_nan b then nan
  else if a <? b then a
  else if b <? a then b
  else if is_neg_zero a then a else b.

(** [x === 0] on numbers (true for both zeros, false for NaN). *)
Definition is_zero_step (x : float) : bool := x =? 0.

(** ** The golden-section minimizer *)

Definition PHI_RATIO : float := 2 / (1 + sqrt 5).

(** [GoldenSectionMinimizeStatus], as the minimizer leaves it. *)
Record GoldenSectionMinimizeStatus := mkStatus {
  iterations : Z;
  argmin : float;
  minimum : float;
  converged : bool
}.

(** The variables the loop of [goldenSectionMinimize] updates. *)
Record gs_state := mkGs {
  gs_xL : float; gs_xU : float;
  gs_x1 : float; gs_x2 : float;
  gs_f1 : float; gs_f2 : float
}.

Section GoldenSection.

Variable f : float -> float.

Definition gs_init (xL xU : float) : gs_state :=
  let x1 := xU - PHI_RATIO * (xU - xL) in
  let x2 := xL + PHI_RATIO * (xU - xL) in
  mkGs xL xU x1 x2 (f x1) (f x2).

(** One pass through the loop body. *)
Definition gs_step (s : gs_state) : gs_state :=
  if gs_f1 s <? gs_f2 s then            (* f2 > f1 *)
    let xU := gs_x2 s in
    let x2 := gs_x1 s in
    let f2 := gs_f1 s in
    let x1 := xU - PHI_RATIO * (xU - gs_xL s) in
    mkGs (gs_xL s) xU x1 x2 (f x1) f2
  else
    let xL := gs_x1 s in
    let x1 := gs_x2 s in
    let f1 := gs_f2 s in
    let x2 := xL + PHI_RATIO * (gs_xU s - xL) in
    mkGs xL (gs_xU s) x1 x2 f1 (f x2).

(** The loop guard [++iteration < maxIterations && Math.abs(xU - xL) > tol],
    on the counter as already incremented. *)
Definition gs_guard (tol : float) (maxIterations iteration : Z) (s : gs_state) : bool :=
  (iteration <? maxIterations)%Z && (tol <? abs (gs_xU s - gs_xL s)).

(** [while (++iteration < maxIterations && Math.abs(xU - xL) > tol) body].
    [iteration] is the counter before the increment; the result carries the
    counter as the loop leaves it.  The counter bounds the number of passes,
    so [fuel] passes are enough when [maxIterations <= iteration + 1 + fuel]
    (see [gs_loop_fuel]). *)
Fixpoint gs_loop (tol : float) (maxIterations : Z) (fuel : nat)
         (iteration : Z) (s : gs_state) : Z * gs_state :=
  let iteration := (iteration + 1)%Z in
  if gs_guard tol maxIterations iteration s then
    match fuel with
    | O => (iteration, s)
    | S fuel' => gs_loop tol maxIterations fuel' iteration (gs_step s)
    end
  else (iteration, s).

Definition gs_run (xL xU tol : float) (maxIterations : Z) : Z * gs_state :=
  gs_loop tol maxIterations (Z.to_nat maxIterations) 0 (gs_init xL xU).

Definition gs_xF (s : gs_state) : float := 0.5 * (gs_xU s + gs_xL s).
Definition gs_fF (s : gs_state) : float := 0.5 * (gs_f1 s + gs_f2 s).

(** The choice between the original end points and the interior estimate
    (the last statement of both variants). *)
Definition gs_pick (xL0 xU0 : float) (s : gs_state) : float :=
  if f xL0 <? gs_fF s then xL0
  else if f xU0 <? gs_fF s then xU0
  else gs_xF s.

End GoldenSection.

(** The asynchronous variant: the budget test comes first and returns the
    midpoint, a NaN probe value returns [undefined]. *)
Module Async.

Definition goldenSectionMinimize (f : float -> float) (xL xU tol : float)
           (maxIterations : Z) : option float * GoldenSectionMinimizeStatus :=
  let '(iteration, s) := gs_run f xL xU tol maxIterations in
  let xF := gs_xF s in
  let fF := gs_fF s in
  if (iteration =? maxIterations)%Z then
    (Some xF, mkStatus iteration xF fF false)
  else if isNaN (gs_f2 s) || isNaN (gs_f1 s) then
    (None, mkStatus iteration xF fF false)
  else
    (Some (gs_pick f xL xU s), mkStatus iteration xF fF true).

End Async.

(** The synchronous variant: one test for a NaN probe value and for the
    exhausted budget, which returns NaN. *)
Module Sync.

Definition goldenSectionMinimize (f : float -> float) (xL xU tol : float)
           (maxIterations : Z) : option float * GoldenSectionMinimizeStatus :=
  let '(iteration, s) := gs_run f xL xU tol maxIterations in
  let xF := gs_xF s in
  let fF := gs_fF s in
  if isNaN (gs_f2 s) || isNaN (gs_f1 s) || (iteration =? maxIterations)%Z then
    (Some nan, mkStatus iteration xF fF false)
  else
    (Some (gs_pick f xL xU s), mkStatus iteration xF fF true).

End Sync.

(** ** The 1D line minimizer *)

Record MinimizeOptions := mkMinimizeOptions {
  tolerance : option float;
  initialIncrement : option float;
  lowerBound : option float;
  upperBound : option float;
  maxIterations : option Z;
  guess : option float
}.

Definition noMinimizeOptions : MinimizeOptions :=
  mkMinimizeOptions None None None None None None.

(** [a ?? b] and [a === undefined ? b : a]. *)
Definition orElse {A : Type} (a : option A) (b : A) : A :=
  match a with Some x => x | None => b end.

(** The type of a golden-section routine and of a bracketing routine.
    [bracketMinimum(bounds, f, x0, dx, xMin, xMax)] fills the two-element
    array [bounds]; it is modelled as returning the pair it writes. *)
Definition golden_section : Type :=
  (float -> float) -> float -> float -> float -> Z ->
  option float * GoldenSectionMinimizeStatus.
Definition bracketer : Type :=
  (float -> float) -> float -> float -> float -> float -> float * float.

Section LineMinimizer.

(** [minimizeGoldenSection1D] is written against ["./golden-section-minimize"]
    and ["./bracket-minimum"].  The repository holds two variants of the
    former, and the latter is not among the sources: both are parameters. *)
Variable goldenSectionMinimize : golden_section.
Variable bracketMinimum : bracketer.

Definition initialStatus : GoldenSectionMinimizeStatus :=
  mkStatus 0 nan infinity false.

Definition minimizeGoldenSection1D (f : float -> float)
           (options : option MinimizeOptions)
  : option float * GoldenSectionMinimizeStatus :=
  let options := orElse options noMinimizeOptions in
  let tolerance := orElse (tolerance options) 1e-8 in
  let dx := orElse (initialIncrement options) 1 in
  let xMin := orElse (lowerBound options) neg_infinity in
  let xMax := orElse (upperBound options) infinity in
  let maxIterations := orElse (maxIterations options) 100%Z in
  if isFinite xMax && isFinite xMin then
    goldenSectionMinimize f xMin xMax tolerance maxIterations
  else
    let x0 :=
      match guess options with
      | None =>
          if neg_infinity <? xMin then
            (if xMax <? infinity then 0.5 * (xMin + xMax) else xMin)
          else
            (if xMax <? infinity then xMax else 0)
      | Some g => g
      end in
    let bounds := bracketMinimum f x0 dx xMin xMax in
    if isNaN (fst bounds) || isNaN (snd bounds) then
      (Some nan, initialStatus)
    else
      goldenSectionMinimize f (fst bounds) (snd bounds) tolerance maxIterations.

End LineMinimizer.

(** ** Powell's method *)

(** A point or a direction: an array of numbers. *)
Definition vec : Type := list float.

(** [x[i]] read as a number: an absent element is [undefined], which every
    use below ([Math.max], [Math.min], [+], [*], [-]) turns into NaN. *)
Definition get (x : vec) (i : nat) : float := nth i x nan.

(** [x[i] = v]: an assignment past the end extends the array; the elements
    skipped over stay absent and read as NaN. *)
Fixpoint set (x : vec) (i : nat) (v : float) : vec :=
  match i, x with
  | O, [] => [v]
  | O, _ :: r => v :: r
  | S k, [] => nan :: set [] k v
  | S k, a :: r => a :: set r k v
  end.

(** One entry of [options.bounds]: [[lower, upper]] or [null]. *)
Definition ibound : Type := option (float * float).

Record PowellOptions := mkPowellOptions {
  maxIter : option Z;
  maxIterLinearSearch : option Z;
  lineTolerance : option float;
  powellTolerance : option float;          (* the field [tolerance] *)
  bounds : option (list ibound);
  verbose : option bool
}.

(** What a run of [minimizePowell] does, in order: the points pushed on
    [status.points], the calls of the line minimizer (with the iteration
    index, the direction set, the current point and the direction at the
    call, and the step it returned; [inCycle] tells the searches over the
    direction set from the extra search along the new direction), and the
    evaluations [f(p)] of the [verbose] log line. *)
Inductive event : Type :=
| Point (p : vec)
| Search (inCycle : bool) (iter : Z) (u : list vec) (p ui : vec) (tmin : option float)
| Log (iter : Z) (ratio : float) (p : vec) (fp : float).

(** How a call ends: with [return r] ([None] is [undefined]) or with the
    TypeError of reading an element of an absent direction. *)
Inductive outcome : Type :=
| Returned (r : option vec)
| TypeError.

(** A loop body either goes on with a new state or ends the call. *)
Inductive flow (A : Type) : Type :=
| Continue (a : A)
| Stop (o : outcome).
Arguments Continue {A} a.
Arguments Stop {A} o.

Section Powell.

(** [await minimizeGoldenSection1D(fi, {...})]: the line minimizer the
    module imports, called without a status object. *)
Variable lineMin : (float -> float) -> option MinimizeOptions -> option float.

Variable f : vec -> float.
Variable x0 : vec.
Variable options : option PowellOptions.

Definition opt {A : Type} (field : PowellOptions -> option A) : option A :=
  match options with Some o => field o | None => None end.

Definition maxIter_ : Z := orElse (opt maxIter) 20%Z.
Definition bounds_ : list ibound := orElse (opt bounds) [].
Definition verbose_ : bool := orElse (opt verbose) false.
Definition maxIterLinearSearch_ : Z := orElse (opt maxIterLinearSearch) 100%Z.
Definition dx : float := 0.1.
Definition tol : float := orElse (opt powellTolerance) 1e-8.
Definition tol1d : float := orElse (opt lineTolerance) tol * dx.

(** Dimensionality. *)
Definition n : nat := length x0.

(** The search directions [u[i][j] = i === j ? 1 : 0]. *)
Definition basis : list vec :=
  map (fun i => map (fun j => if Nat.eqb i j then 1 else 0) (seq 0 n)) (seq 0 n).

(** The body of the loop of [constrain] at index [i]. *)
Definition constrain_at (ibounds : ibound) (i : nat) (x : vec) : vec :=
  match ibounds with
  | None => x
  | Some (lo, hi) =>
      let x := if isFinite lo then set x i (Math_max lo (get x i)) else x in
      if isFinite hi then set x i (Math_min hi (get x i)) else x
  end.

Fixpoint constrain_from (bs : list ibound) (i : nat) (x : vec) : vec :=
  match bs with
  | [] => x
  | b :: bs' => constrain_from bs' (S i) (constrain_at b i x)
  end.

(** [constrain(x)], returning the array it updates in place. *)
Definition constrain (x : vec) : vec := constrain_from bounds_ 0 x.

(** The body of the loop of [bound] at index [j], on [(lower, upper)]. *)
Definition bound_at (jbounds : ibound) (pj uj : float) (lu : float * float)
  : float * float :=
  match jbounds with
  | None => lu
  | Some (b0, b1) =>
      if uj =? 0 then lu
      else
        let lower :=
          if isFinite b0
          then (if 0 <? uj then Math_max else Math_min) (fst lu) ((b0 - pj) / uj)
          else fst lu in
        let upper :=
          if isFinite b1
          then (if 0 <? uj then Math_min else Math_max) (snd lu) ((b1 - pj) / uj)
          else snd lu in
        (lower, upper)
  end.

(** [bound(p, ui)]: the pair [[lower, upper]]. *)
Definition bound (p ui : vec) : float * float :=
  match opt bounds with
  | Some _ =>
      fold_left
        (fun lu j => bound_at (nth j bounds_ None) (get p j) (get ui j) lu)
        (seq 0 n) (neg_infinity, infinity)
  | None => (neg_infinity, infinity)
  end.

(** [fi(t)], with [p] and [ui] as they stand at the call. *)
Definition fi (p ui : vec) (t : float) : float :=
  f (map (fun i => get p i + get ui i * t) (seq 0 n)).

(** [for (j = 0; j < n; j++) p[j] += tmin * ui[j]]. *)
Definition add_step (tmin : float) (ui p : vec) : vec :=
  fold_left (fun p j => set p j (get p j + tmin * get ui j)) (seq 0 n) p.

(** The call of the line minimizer along [ui] from [p]. *)
Definition lineSearch (p ui : vec) : option float :=
  let tlimit := bound p ui in
  lineMin (fi p ui)
    (Some (mkMinimizeOptions (Some tol1d) (Some dx)
                             (Some (fst tlimit)) (Some (snd tlimit))
                             (Some maxIterLinearSearch_) None)).

(** [for (i = 0; i < n; i++) { ui = u[i]; ... }], over the indices [idx]
    still to do. *)
Fixpoint cycle (iter : Z) (u : list vec) (idx : list nat) (p : vec)
  : flow vec * list event :=
  match idx with
  | [] => (Continue p, [])
  | i :: idx' =>
      match nth_error u i with
      | None => (Stop TypeError, [])
      | Some ui =>
          let tmin := lineSearch p ui in
          let ev := Search true iter u p ui tmin in
          match tmin with
          | None => (Stop (Returned None), [ev])
          | Some t =>
              if is_zero_step t then (Stop (Returned (Some p)), [ev])
              else
                let p' := constrain (add_step t ui p) in
                let '(r, tr) := cycle iter u idx' p' in
                (r, ev :: Point p' :: tr)
          end
      end
  end.

(** [if (iter % n === 0)] reinitialize the search vectors ([iter % 0] is
    NaN). *)
Definition reinit (iter : Z) (u : list vec) : list vec :=
  if Nat.ltb 0 n && (Z.rem iter (Z.of_nat n) =? 0)%Z then basis else u.

(** The new direction [p - p0] and the sum of its squares. *)
Definition displacement (p p0 : vec) : vec :=
  map (fun j => get p j - get p0 j) (seq 0 n).
Definition sum_squares (un : vec) : float :=
  fold_left (fun s x => s + x * x) un 0.

(** [err] as the last loop of the body accumulates it. *)
Definition step_err (tmin : float) (ui : vec) : float :=
  fold_left (fun e j => let du := tmin * get ui j in e + du * du) (seq 0 n) 0.

(** One pass through the body of the outer loop; the state carried to the
    next pass is [(p, u, perr)]. *)
Definition body (iter : Z) (p : vec) (u : list vec) (perr : float)
  : flow (vec * list vec * float) * list event :=
  let u := reinit iter u in
  let p0 := map (get p) (seq 0 n) in
  match cycle iter u (seq 0 n) p with
  | (Stop o, tr) => (Stop o, tr)
  | (Continue p, tr) =>
      let u := tl u in                                   (* u.shift() *)
      let un := displacement p p0 in
      let sum := sqrt (sum_squares un) in
      if 0 <? sum then
        let un := map (fun x => x / sum) un in
        let u := u ++ [un] in                            (* u.push(un) *)
        let tmin := lineSearch p un in
        let ev := Search false iter u p un tmin in
        match tmin with
        | None => (Stop (Returned None), tr ++ [ev])
        | Some t =>
            if is_zero_step t || negb (isFinite t)
            then (Stop (Returned (Some p)), tr ++ [ev])
            else
              let err := sqrt (step_err t un) in
              let p := constrain (add_step t un p) in
              let log :=
                if verbose_ then [Log iter (err / perr) p (f p)] else [] in
              if err / perr <? tol
              then (Stop (Returned (Some p)), tr ++ ev :: Point p :: log)
              else (Continue (p, u, err), tr ++ ev :: Point p :: log)
        end
      else (Stop (Returned (Some p)), tr)
  end.

(** [while (++iter < maxIter) body; return p].  [iter] is the counter
    before the increment; at most [maxIter - 1 - iter] passes are made, so
    the fuel [Z.to_nat maxIter] of [minimizePowell] is never used up (see
    [loop_fuel]). *)
Fixpoint loop (fuel : nat) (iter : Z) (p : vec) (u : list vec) (perr : float)
  : outcome * list event :=
  let iter := (iter + 1)%Z in
  if (iter <? maxIter_)%Z then
    match fuel with
    | O => (Returned (Some p), [])
    | S fuel' =>
        match body iter p u perr with
        | (Stop o, tr) => (o, tr)
        | (Continue (p', u', perr'), tr) =>
            let '(o, tr') := loop fuel' iter p' u' perr' in (o, tr ++ tr')
        end
    end
  else (Returned (Some p), []).

(** [minimizePowell(f, x0, options, status)]: how the call ends and what
    it did; [status.points] is the list of the [Point] events. *)
Definition minimizePowell : outcome * list event :=
  let p := constrain x0 in
  let '(o, tr) := loop (Z.to_nat maxIter_) 0 p basis 0 in
  (o, Point p :: tr).

End Powell.

(** [status.points] after a run. *)
Fixpoint points (tr : list event) : list vec :=
  match tr with
  | [] => []
  | Point p :: tr' => p :: points tr'
  | _ :: tr' => points tr'
  end.

(** The line minimizer of the module, made of a golden-section routine and a
    bracketing routine. *)
Definition lineMinimizer (gs : golden_section) (br : bracketer)
  : (float -> float) -> option MinimizeOptions -> option float :=
  fun g o => fst (minimizeGoldenSection1D gs br g o).

(** ** The bracketing routine, from the specification *)

(** Modelled from the spec: the cap on the expansion of [bracketMinimum],
    the number of doublings after which it gives up; the specification asks
    for a generous finite cap and fixes no value. *)
Definition bracket_cap : nat := 64.

(** Modelled from the spec: the expansion of [bracketMinimum] from [x]
    (value [fx], reached from [xprev]) by steps [d * dx], [d] being [1] or
    [-1], the step doubling each time; the bracket is reported in increasing
    order. *)
Fixpoint bracket_expand (fuel : nat) (f : float -> float) (d : float)
         (xprev x fx dx xMin xMax : float) : float * float :=
  match fuel with
  | O => (nan, nan)
  | S fuel' =>
      let xn := Math_min xMax (Math_max xMin (x + d * dx)) in
      let fn := f xn in
      if (fx <? fn) || (xn =? xMin) || (xn =? xMax) then
        (if 0 <? d then (xprev, xn) else (xn, xprev))
      else bracket_expand fuel' f d x xn fn (2 * dx) xMin xMax
  end.

(** Modelled from the spec: [bracketMinimum], whose module
    ["./bracket-minimum"] is not among the sources.  Section 4.1: starting
    from the guess, step outward by the initial step in the direction of
    decreasing [f], doubling the step each iteration, until [f] increases
    again or a domain limit is reached, where the bracket is clamped to the
    limit; an expansion that does not end within a bounded number of steps
    reports failure, both bracket values NaN.  Equal limits give the
    degenerate bracket, and a zero step or a function that does not decrease
    on either side is bracketed at the guess.

    This is the routine as the specification describes it; it serves in the
    example runs only.  The routine of the repository may report failure
    otherwise: its tests expect [status.minimum] to be NaN after the
    unbounded search on [-x^2], which the NaN bracket of the specification,
    leaving the initial status, does not give.  The properties below that
    involve bracketing are stated for every bracketing routine. *)
Definition bracketMinimum_spec : bracketer :=
  fun f guess step lowerLimit upperLimit =>
    if lowerLimit =? upperLimit then (lowerLimit, upperLimit)
    else if step =? 0 then (guess, guess)
    else
      let a := Math_max lowerLimit (guess - step) in
      let c := Math_min upperLimit (guess + step) in
      let f0 := f guess in
      if (f0 <=? f a) && (f0 <=? f c) then (a, c)
      else if f c <? f a
      then bracket_expand bracket_cap f 1 guess c (f c) (2 * step) lowerLimit upperLimit
      else bracket_expand bracket_cap f (-1) guess a (f a) (2 * step) lowerLimit upperLimit.

(** ** The properties of the specification, as it states them *)

(** The step interval of the specification for [bound]: over the dimensions
    [j] with a bound and [u[j] != 0], the largest lower step limit and the
    smallest upper step limit of [bounds[j][0] <= p[j] + u[j]*t <= bounds[j][1]].
    For [u[j] < 0] the lower coordinate bound limits the step from above and
    the upper one from below. *)
Definition step_limits_at (jbounds : ibound) (pj uj : float) (lu : float * float)
  : float * float :=
  match jbounds with
  | None => lu
  | Some (b0, b1) =>
      if uj =? 0 then lu
      else
        let from_below := if 0 <? uj then b0 else b1 in
        let from_above := if 0 <? uj then b1 else b0 in
        (if isFinite from_below
         then Math_max (fst lu) ((from_below - pj) / uj) else fst lu,
         if isFinite from_above
         then Math_min (snd lu) ((from_above - pj) / uj) else snd lu)
  end.

Definition feasible_steps (bs : list ibound) (p ui : vec) : float * float :=
  fold_left
    (fun lu j => step_limits_at (nth j bs None) (get p j) (get ui j) lu)
    (seq 0 (length p)) (neg_infinity, infinity).

(** A point satisfies the finite box bounds. *)
Definition within_bounds (bs : list ibound) (p : vec) : Prop :=
  forall i lo hi, nth_error bs i = Some (Some (lo, hi)) ->
    (isFinite lo = true -> (lo <=? get p i) = true) /\
    (isFinite hi = true -> (get p i <=? hi) = true).

(** A point satisfies them in each coordinate that is a number. *)
Definition within_bounds_or_nan (bs : list ibound) (p : vec) : Prop :=
  forall i lo hi, nth_error bs i = Some (Some (lo, hi)) ->
    is_nan (get p i) = true \/
    ((isFinite lo = true -> (lo <=? get p i) = true) /\
     (isFinite hi = true -> (get p i <=? hi) = true)).

(** The bounds of a dimension are in order when both are finite. *)
Definition ordered_bounds (bs : list ibound) : Prop :=
  forall i lo hi, nth_error bs i = Some (Some (lo, hi)) ->
    isFinite lo = true -> isFinite hi = true -> (lo <=? hi) = true.

(** The loop of [goldenSectionMinimize] ends on its counter: the test
    [++iteration < maxIterations] fails. *)
Definition budget_exhausted (maxIterations : Z) (run : Z * gs_state) : Prop :=
  (fst run <? maxIterations)%Z = false.

(** The width of the interval is still above the tolerance. *)
Definition above_tolerance (tol : float) (s : gs_state) : bool :=
  tol <? abs (gs_xU s - gs_xL s).

(** The states in which the loop guard of [goldenSectionMinimize] is
    evaluated, in order: the probe values of the whole search. *)
Fixpoint gs_visited (f : float -> float) (tol : float) (maxIterations : Z)
         (fuel : nat) (iteration : Z) (s : gs_state) : list gs_state :=
  let iteration := (iteration + 1)%Z in
  s :: (if gs_guard tol maxIterations iteration s then
          match fuel with
          | O => []
          | S fuel' => gs_visited f tol maxIterations fuel' iteration (gs_step f s)
          end
        else []).

(** A probe of the search evaluated to NaN. *)
Definition nan_probe (f : float -> float) (xL xU tol : float) (maxIterations : Z) : Prop :=
  exists s,
    In s (gs_visited f tol maxIterations (Z.to_nat maxIterations) 0 (gs_init f xL xU)) /\
    (isNaN (gs_f1 s) || isNaN (gs_f2 s)) = true.

(** The statement on an exhausted budget, for a golden-section routine. *)
Definition exhaustion_returns_midpoint (gs : golden_section)
           (f : float -> float) (xL xU tol : float) (maxIterations : Z) : Prop :=
  let run := gs_run f xL xU tol maxIterations in
  budget_exhausted maxIterations run ->
  above_tolerance tol (snd run) = true ->
  fst (gs f xL xU tol maxIterations) = Some (gs_xF (snd run)) /\
  converged (snd (gs f xL xU tol maxIterations)) = false.

(** The statement on a NaN probe, for a golden-section routine. *)
Definition nan_probe_fails (gs : golden_section)
           (f : float -> float) (xL xU tol : float) (maxIterations : Z) : Prop :=
  nan_probe f xL xU tol maxIterations ->
  fst (gs f xL xU tol maxIterations) = None /\
  converged (snd (gs f xL xU tol maxIterations)) = false.

(** The statement on the order of the two tests of the asynchronous
    variant. *)
Definition budget_test_first (f : float -> float) (xL xU tol : float)
           (maxIterations : Z) : Prop :=
  let run := gs_run f xL xU tol maxIterations in
  let r := Async.goldenSectionMinimize f xL xU tol maxIterations in
  (budget_exhausted maxIterations run ->
   fst r = Some (gs_xF (snd run)) /\ converged (snd r) = false) /\
  (fst r = None -> above_tolerance tol (snd run) = false).

(** What [constrain] does to the coordinate of a dimension with entry [b]. *)
Definition clamp (b : ibound) (v : float) : float :=
  match b with
  | None => v
  | Some (lo, hi) =>
      let v := if isFinite lo then Math_max lo v else v in
      if isFinite hi then Math_min hi v else v
  end.

(** The events one pass of the body can emit, at iteration [iter] entered
    with the direction set [u]. *)
Definition body_event (x0 : vec) (options : option PowellOptions)
           (iter : Z) (u : list vec) (e : event) : Prop :=
  match e with
  | Point q => exists x, q = constrain options x
  | Search true it u' _ _ _ => it = iter /\ u' = reinit x0 iter u
  | Search false it u' _ _ _ =>
      it = iter /\ exists un, u' = tl (reinit x0 iter u) ++ [un]
  | Log it _ _ _ => it = iter
  end.

(** The line searches after which the call returns, with what it returns:
    [undefined] after a search that returned [undefined], the current point
    after a zero step, and also after a step that is not finite when the
    search is the extra one along the new direction. *)
Definition stops (e : event) : option (option vec) :=
  match e with
  | Search _ _ _ _ _ None => Some None
  | Search true _ _ p _ (Some t) =>
      if is_zero_step t then Some (Some p) else None
  | Search false _ _ p _ (Some t) =>
      if is_zero_step t || negb (isFinite t) then Some (Some p) else None
  | _ => None
  end.

(** A search after which the call returns ends the trace, and the call
    returns what the search determines. *)
Definition ends_on_stop (o : outcome) (tr : list event) : Prop :=
  forall pre e post r, tr = pre ++ e :: post -> stops e = Some r ->
    post = [] /\ o = Returned r.

(** Every point of [status.points] satisfies every finite bound. *)
Definition points_within_bounds
           (lineMin : (float -> float) -> option MinimizeOptions -> option float)
           (f : vec -> float) (x0 : vec) (options : option PowellOptions) : Prop :=
  Forall (within_bounds (bounds_ options))
         (points (snd (minimizePowell lineMin f x0 options))).

(** Options with only [bounds], and with only [bounds] and [maxIter]. *)
Definition withBounds (bs : list ibound) : option PowellOptions :=
  Some (mkPowellOptions None None None None (Some bs) None).
Definition withBoundsMaxIter (bs : list ibound) (m : Z) : option PowellOptions :=
  Some (mkPowellOptions (Some m) None None None (Some bs) None).

(** The iteration indices of the line searches and log lines of a trace, in
    order. *)
Fixpoint iteration_indices (tr : list event) : list Z :=
  match tr with
  | [] => []
  | Search _ it _ _ _ _ :: tr' => it :: iteration_indices tr'
  | Log it _ _ _ :: tr' => it :: iteration_indices tr'
  | Point _ :: tr' => iteration_indices tr'
  end.

(** ** Inputs of the examples *)

(** The line minimizer of the examples: the asynchronous golden-section
    routine with the bracketing routine of the specification. *)
Definition lineMinExample
  : (float -> float) -> option MinimizeOptions -> option float :=
  lineMinimizer Async.goldenSectionMinimize bracketMinimum_spec.

(** An objective on [[0, 1]] that is NaN at the first probe point only. *)
Definition nan_at_first_probe (x : float) : float :=
  if x =? gs_x1 (gs_init (fun y => y) 0 1) then nan else (x - 0.7) * (x - 0.7).

(** ** Further notions on runs and options *)

(** The number of calls of the line minimizer in a trace. *)
Fixpoint searches (tr : list event) : nat :=
  match tr with
  | [] => O
  | Search _ _ _ _ _ _ :: tr' => S (searches tr')
  | _ :: tr' => searches tr'
  end.

(** A trace without the lines of the [verbose] log. *)
Fixpoint drop_logs (tr : list event) : list event :=
  match tr with
  | [] => []
  | Log _ _ _ _ :: tr' => drop_logs tr'
  | e :: tr' => e :: drop_logs tr'
  end.

(** The options with [verbose] set to [b]. *)
Definition withVerbose (b : bool) (options : option PowellOptions)
  : option PowellOptions :=
  match options with
  | Some o =>
      Some (mkPowellOptions (maxIter o) (maxIterLinearSearch o) (lineTolerance o)
                            (powellTolerance o) (bounds o) (Some b))
  | None => Some (mkPowellOptions None None None None None (Some b))
  end.

(** The status both variants of [goldenSectionMinimize] leave: the counter,
    the midpoint, the mean of the two probe values, and whether the search
    counts as converged. *)
Definition finalStatus (maxIterations : Z) (run : Z * gs_state)
  : GoldenSectionMinimizeStatus :=
  mkStatus (fst run) (gs_xF (snd run)) (gs_fF (snd run))
           (negb (fst run =? maxIterations)%Z
            && negb (isNaN (gs_f2 (snd run)) || isNaN (gs_f1 (snd run)))).

(** The point a loop body hands on or returns, when there is one. *)
Definition carried {A : Type} (r : flow A) (proj : A -> vec) : option vec :=
  match r with
  | Continue a => Some (proj a)
  | Stop (Returned (Some q)) => Some q
  | Stop _ => None
  end.

(** ** The statements on the direction set, the end points and the budget *)

(** The standard orthonormal basis of dimension [n]: [n] vectors of [n]
    coordinates, the [i]-th with [1] at coordinate [i] and [0] at every
    other coordinate. *)
Definition standard_basis (n : nat) (u : list vec) : Prop :=
  length u = n /\
  forall i, (i < n)%nat ->
    length (nth i u []) = n /\
    forall j, (j < n)%nat ->
      nth j (nth i u []) nan = (if Nat.eqb i j then 1 else 0).

(** The statement on the end points, for a golden-section routine: with
    [fF] the mean of the two final probe values, a converged search returns
    an original end point whose value is strictly below [fF] ([xL] or [xU]
    respectively), and the interior midpoint when there is none. *)
Definition endpoint_respectively (gs : golden_section)
           (f : float -> float) (xL xU tol : float) (maxIterations : Z) : Prop :=
  let s := snd (gs_run f xL xU tol maxIterations) in
  let fF := 0.5 * (gs_f1 s + gs_f2 s) in
  let r := fst (gs f xL xU tol maxIterations) in
  converged (snd (gs f xL xU tol maxIterations)) = true ->
  ((f xL <? fF) = true -> r = Some xL) /\
  ((f xU <? fF) = true -> r = Some xU) /\
  ((f xL <? fF) = false -> (f xU <? fF) = false ->
   r = Some (0.5 * (gs_xU s + gs_xL s))).

(** A loop counter, which is an integer, as the number it is in the
    program (exact below [2^53]). *)
Definition number (i : Z) : float := of_uint63 (Uint63.of_Z i).

(** The test [++iter < maxIter] of the outer loop of [minimizePowell] on the
    counter as already incremented: for a budget that is an integer, and for
    a budget that is any number, as [options.maxIter] is. *)
Definition integer_budget (maxIter : Z) (iter : Z) : bool := (iter <? maxIter)%Z.
Definition number_budget (maxIter : float) (iter : Z) : bool := number iter <? maxIter.

Section PowellPasses.

Variable lineMin : (float -> float) -> option MinimizeOptions -> option float.
Variable f : vec -> float.
Variable x0 : vec.
Variable options : option PowellOptions.

(** [while (++iter < maxIter) body; return p] with the outcome of the
    test given by [test], and with the number of passes through the body.
    For [test = integer_budget maxIter] this is [loop] (see
    [loop_with_integer_budget]).  At most [fuel] passes are made. *)
Fixpoint loop_with (test : Z -> bool) (fuel : nat) (iter : Z) (p : vec)
         (u : list vec) (perr : float) : outcome * list event * nat :=
  let iter := (iter + 1)%Z in
  if test iter then
    match fuel with
    | O => (Returned (Some p), [], O)
    | S fuel' =>
        match body lineMin f x0 options iter p u perr with
        | (Stop o, tr) => (o, tr, 1%nat)
        | (Continue (p', u', perr'), tr) =>
            let '(o, tr', k) := loop_with test fuel' iter p' u' perr' in
            (o, tr ++ tr', S k)
        end
    end
  else (Returned (Some p), [], O).

(** [minimizePowell] with the test of its outer loop given by [test]: how
    the call ends, what it did, and the number of passes of the outer
    loop. *)
Definition minimizePowell_with (test : Z -> bool) (fuel : nat)
  : outcome * list event * nat :=
  let p := constrain options x0 in
  let '(o, tr, k) := loop_with test fuel 0 p (basis x0) 0 in
  (o, Point p :: tr, k).

(** The call for an integer [maxIter], with the number of passes. *)
Definition minimizePowell_passes : outcome * list event * nat :=
  minimizePowell_with (integer_budget (maxIter_ options))
                      (Z.to_nat (maxIter_ options)).

End PowellPasses.

(** The statement on the budget of the outer loop, for a budget that is any
    number: the loop makes at most [maxIter - 1] passes. *)
Definition at_most_maxIter_minus_one (maxIter : float) (passes : nat) : Prop :=
  (number (Z.of_nat passes) <=? maxIter - 1) = true.

(** ** Further inputs of the examples *)

(** An objective on [[0, 1]] whose values at both end points are below its
    values inside, the value at the upper end point being the lower one. *)
Definition both_ends_low (x : float) : float :=
  if x =? 0 then -1 else if x =? 1 then -2 else (x - 0.5) * (x - 0.5).

(** A quadratic valley along [x = y] with its minimum at [(4, 4)]. *)
Definition valley (v : vec) : float :=
  let x := get v 0 in
  let y := get v 1 in
  (y - x) * (y - x) + 0.1 * (x + y - 8) * (x + y - 8).

(** The bounds of the runs on the valley: [[0, 10]] in both dimensions. *)
Definition valleyBounds : list ibound := [Some (0, 10); Some (0, 10)].

(** * Facts on binary64 comparisons *)

Lemma SFcompare_antisym (x y : spec_float) :
  SFcompare y x = option_map CompOpp (SFcompare x y).
Proof.
  destruct x as [sx|sx| |sx mx ex], y as [sy|sy| |sy my ey]; simpl; try reflexivity;
    try (destruct sx; reflexivity); try (destruct sy; reflexivity);
    try (destruct sx, sy; reflexivity).
  destruct sx, sy; try reflexivity;
    rewrite (Z.compare_antisym ey ex); destruct (ey ?= ex)%Z; simpl; try reflexivity;
    rewrite !Pos.compare_cont_spec; simpl;
    rewrite (Pos.compare_antisym my mx); destruct (my ?= mx)%positive; reflexivity.
Qed.

Lemma is_nan_false_compare (x : float) :
  is_nan x = false -> SFcompare (Prim2SF x) (Prim2SF x) = Some Eq.
Proof.
  unfold is_nan. rewrite FloatAxioms.eqb_spec. unfold SFeqb.
  destruct (SFcompare (Prim2SF x) (Prim2SF x)) as [[]|]; simpl; congruence.
Qed.

Lemma SFcompare_none (x y : spec_float) :
  SFcompare x y = None -> x = S754_nan \/ y = S754_nan.
Proof.
  destruct x as [sx|sx| |sx mx ex], y as [sy|sy| |sy my ey]; simpl; auto; discriminate.
Qed.

Lemma is_nan_eq (x : float) : is_nan x = true -> x = nan.
Proof.
  intros H. apply Prim2SF_inj.
  unfold is_nan in H. rewrite FloatAxioms.eqb_spec in H. unfold SFeqb in H.
  change (Prim2SF nan) with S754_nan.
  destruct (Prim2SF x) as [s|s| |s m e]; simpl in H; try reflexivity; try discriminate.
  - destruct s; discriminate.
  - destruct s; rewrite Z.compare_refl, Pos.compare_cont_spec, Pos.compare_refl in H;
      discriminate.
Qed.

Lemma leb_refl (x : float) : is_nan x = false -> (x <=? x) = true.
Proof.
  intros H. rewrite leb_spec. unfold SFleb.
  now rewrite (is_nan_false_compare x H).
Qed.

Lemma ltb_leb (x y : float) : (x <? y) = true -> (x <=? y) = true.
Proof.
  rewrite ltb_spec, leb_spec. unfold SFltb, SFleb.
  destruct (SFcompare (Prim2SF x) (Prim2SF y)) as [[]|]; congruence.
Qed.

Lemma not_ltb_leb (x y : float) :
  is_nan x = false -> is_nan y = false -> (x <? y) = false -> (y <=? x) = true.
Proof.
  intros Hx Hy. rewrite ltb_spec, leb_spec. unfold SFltb, SFleb.
  rewrite (SFcompare_antisym (Prim2SF x) (Prim2SF y)).
  destruct (SFcompare (Prim2SF x) (Prim2SF y)) as [[]|] eqn:E; simpl; try congruence.
  intros _. apply SFcompare_none in E.
  apply is_nan_false_compare in Hx. apply is_nan_false_compare in Hy.
  destruct E as [E|E]; rewrite E in *; discriminate.
Qed.

Lemma isFinite_not_nan (x : float) : isFinite x = true -> is_nan x = false.
Proof.
  unfold isFinite, is_finite. destruct (is_nan x); simpl; congruence.
Qed.

Lemma Math_max_lower (lo x : float) :
  is_nan lo = false ->
  is_nan (Math_max lo x) = true \/
  ((lo <=? Math_max lo x) = true /\ (Math_max lo x = lo \/ Math_max lo x = x)).
Proof.
  intros Hlo. unfold Math_max. rewrite Hlo. simpl.
  destruct (is_nan x) eqn:Hx; [now left|]. right.
  destruct (lo <? x) eqn:H1; [split; [now apply ltb_leb | now right]|].
  destruct (x <? lo) eqn:H2; [split; [now apply leb_refl | now left]|].
  destruct (is_neg_zero lo).
  - split; [|now right]. now apply not_ltb_leb.
  - split; [now apply leb_refl | now left].
Qed.

Lemma Math_min_upper (hi x : float) :
  is_nan hi = false ->
  is_nan (Math_min hi x) = true \/
  ((Math_min hi x <=? hi) = true /\ (Math_min hi x = hi \/ Math_min hi x = x)).
Proof.
  intros Hhi. unfold Math_min. rewrite Hhi. simpl.
  destruct (is_nan x) eqn:Hx; [now left|]. right.
  destruct (hi <? x) eqn:H1; [split; [now apply leb_refl | now left]|].
  destruct (x <? hi) eqn:H2; [split; [now apply ltb_leb | now right]|].
  destruct (is_neg_zero hi).
  - split; [now apply leb_refl | now left].
  - split; [|now right]. now apply not_ltb_leb.
Qed.

Lemma leb_not_ltb (a b : float) : (a <=? b) = true -> (b <? a) = false.
Proof.
  rewrite leb_spec, ltb_spec. unfold SFleb, SFltb.
  rewrite (SFcompare_antisym (Prim2SF a) (Prim2SF b)).
  destruct (SFcompare (Prim2SF a) (Prim2SF b)) as [[]|]; cbn; congruence.
Qed.

(** * The golden-section minimizer *)

Section GoldenSectionFacts.

Variable f : float -> float.
Variable tol : float.
Variable maxI : Z.

(** With enough fuel the loop ends on its guard, and the counter it leaves
    is at most the budget (or one, for a budget below one). *)
Lemma gs_loop_fuel (fuel : nat) : forall (it : Z) (s : gs_state),
  (maxI <= it + 1 + Z.of_nat fuel)%Z ->
  let r := gs_loop f tol maxI fuel it s in
  gs_guard tol maxI (fst r) (snd r) = false /\
  (it + 1 <= fst r)%Z /\ (fst r <= Z.max (it + 1) maxI)%Z.
Proof.
  induction fuel as [|k IH]; intros it s Hfuel; cbn [gs_loop].
  - destruct (gs_guard tol maxI (it + 1) s) eqn:G; cbn [fst snd].
    + unfold gs_guard in G. apply andb_prop in G. destruct G as [G _].
      apply Z.ltb_lt in G. lia.
    + repeat split; [assumption | lia | lia].
  - destruct (gs_guard tol maxI (it + 1) s) eqn:G; cbn [fst snd].
    + assert (Hlt : (it + 1 < maxI)%Z).
      { unfold gs_guard in G. apply andb_prop in G. destruct G as [G _].
        now apply Z.ltb_lt in G. }
      destruct (IH (it + 1)%Z (gs_step f s)) as (H1 & H2 & H3); [lia|].
      repeat split; [assumption | lia | lia].
    + repeat split; [assumption | lia | lia].
Qed.

(** More fuel than the budget changes nothing. *)
Lemma gs_loop_more_fuel (fuel : nat) : forall (extra : nat) (it : Z) (s : gs_state),
  (maxI <= it + 1 + Z.of_nat fuel)%Z ->
  gs_loop f tol maxI (fuel + extra) it s = gs_loop f tol maxI fuel it s.
Proof.
  induction fuel as [|k IH]; intros extra it s Hfuel.
  - cbn [Nat.add]. destruct extra as [|e]; [reflexivity|]. cbn [gs_loop].
    destruct (gs_guard tol maxI (it + 1) s) eqn:G; [|reflexivity].
    unfold gs_guard in G. apply andb_prop in G. destruct G as [G _].
    apply Z.ltb_lt in G. lia.
  - cbn [Nat.add gs_loop].
    destruct (gs_guard tol maxI (it + 1) s) eqn:G; [|reflexivity].
    apply IH. lia.
Qed.

Variables lo hi : float.

Lemma gs_run_exit :
  let r := gs_run f lo hi tol maxI in
  gs_guard tol maxI (fst r) (snd r) = false /\
  (1 <= fst r)%Z /\ (fst r <= Z.max 1 maxI)%Z.
Proof.
  unfold gs_run.
  destruct (gs_loop_fuel (Z.to_nat maxI) 0 (gs_init f lo hi)) as (H1 & H2 & H3);
    [lia|].
  repeat split; [assumption | lia | lia].
Qed.

(** For a budget of at least one, the loop ends on its counter exactly
    when the counter has reached the budget. *)
Lemma budget_exhausted_iff : (1 <= maxI)%Z ->
  budget_exhausted maxI (gs_run f lo hi tol maxI) <->
  fst (gs_run f lo hi tol maxI) = maxI.
Proof.
  intros Hm. destruct gs_run_exit as (_ & H2 & H3). unfold budget_exhausted.
  rewrite Z.ltb_ge. lia.
Qed.

End GoldenSectionFacts.

Section GoldenSectionClaims.

Variable f : float -> float.
Variables lo hi tol : float.
Variable maxI : Z.

Local Abbreviation run := (gs_run f lo hi tol maxI).
Local Abbreviation xF := (gs_xF (snd run)).
Local Abbreviation fF := (gs_fF (snd run)).

(** What the two variants return when the counter has reached the
    budget. *)
Lemma async_counter_at_budget :
  fst run = maxI ->
  Async.goldenSectionMinimize f lo hi tol maxI
    = (Some xF, mkStatus maxI xF fF false).
Proof.
  unfold Async.goldenSectionMinimize.
  destruct (gs_run f lo hi tol maxI) as [i s]. cbn [fst snd]. intros ->.
  now rewrite Z.eqb_refl.
Qed.

Lemma sync_counter_at_budget :
  fst run = maxI ->
  Sync.goldenSectionMinimize f lo hi tol maxI
    = (Some nan, mkStatus maxI xF fF false).
Proof.
  unfold Sync.goldenSectionMinimize.
  destruct (gs_run f lo hi tol maxI) as [i s]. cbn [fst snd]. intros ->.
  now rewrite Z.eqb_refl, orb_true_r.
Qed.

(** C3 (amended): for a budget of at least one, when the loop ends on its
    counter the asynchronous variant returns the midpoint
    [0.5 * (xU + xL)] of the remaining interval, with [status.argmin] set
    to it and [status.converged = false]; the synchronous variant leaves
    the same status and returns NaN. *)
Theorem exhausted_budget_result :
  (1 <= maxI)%Z ->
  budget_exhausted maxI run ->
  Async.goldenSectionMinimize f lo hi tol maxI
    = (Some xF, mkStatus maxI xF fF false) /\
  Sync.goldenSectionMinimize f lo hi tol maxI
    = (Some nan, mkStatus maxI xF fF false).
Proof.
  intros Hm Hex. apply budget_exhausted_iff in Hex; [|assumption].
  split; [now apply async_counter_at_budget | now apply sync_counter_at_budget].
Qed.

(** C4 (amended): when one of the two probe values is NaN as the loop
    ends and the counter has not reached the budget, the asynchronous
    variant returns [undefined] with [status.converged = false]; the
    synchronous variant returns NaN with [status.converged = false]
    whenever one of the two final probe values is NaN. *)
Theorem nan_final_probe_result :
  (isNaN (gs_f2 (snd run)) || isNaN (gs_f1 (snd run))) = true ->
  (fst run <> maxI ->
   Async.goldenSectionMinimize f lo hi tol maxI
     = (None, mkStatus (fst run) xF fF false)) /\
  Sync.goldenSectionMinimize f lo hi tol maxI
    = (Some nan, mkStatus (fst run) xF fF false).
Proof.
  intros Hnan.
  unfold Async.goldenSectionMinimize, Sync.goldenSectionMinimize in *.
  destruct (gs_run f lo hi tol maxI) as [i s]. cbn [fst snd] in *.
  rewrite Hnan. split; [|reflexivity].
  intros Hi. apply Z.eqb_neq in Hi. now rewrite Hi.
Qed.

(** The result of a converged search is the choice [gs_pick] makes. *)
Lemma converged_result (gs : golden_section) :
  gs = Async.goldenSectionMinimize \/ gs = Sync.goldenSectionMinimize ->
  converged (snd (gs f lo hi tol maxI)) = true ->
  fst (gs f lo hi tol maxI) = Some (gs_pick f lo hi (snd run)).
Proof.
  intros Hgs Hconv.
  destruct Hgs as [-> | ->];
    unfold Async.goldenSectionMinimize, Sync.goldenSectionMinimize in *;
    destruct (gs_run f lo hi tol maxI) as [i s]; cbn [fst snd] in *.
  - destruct (i =? maxI)%Z; [discriminate|].
    destruct (isNaN (gs_f2 s) || isNaN (gs_f1 s)); [discriminate|]. reflexivity.
  - destruct (isNaN (gs_f2 s) || isNaN (gs_f1 s) || (i =? maxI)%Z);
      [discriminate|]. reflexivity.
Qed.

(** C8 (amended): when the search converges ([status.converged = true]),
    in either variant, with [fF = 0.5 * (f1 + f2)] the mean of the two
    final probe values: if [f(lo) < fF] the result is [lo]; otherwise, if
    [f(hi) < fF], it is [hi]; otherwise it is the interior midpoint
    [0.5 * (xU + xL)].  The test on [lo] comes first: [lo] is returned
    also when [f(hi)] is below [fF] and below [f(lo)]. *)
Theorem lower_endpoint_first (gs : golden_section) :
  gs = Async.goldenSectionMinimize \/ gs = Sync.goldenSectionMinimize ->
  converged (snd (gs f lo hi tol maxI)) = true ->
  let s := snd run in
  let fF := 0.5 * (gs_f1 s + gs_f2 s) in
  let r := fst (gs f lo hi tol maxI) in
  minimum (snd (gs f lo hi tol maxI)) = fF /\
  ((f lo <? fF) = true -> r = Some lo) /\
  ((f lo <? fF) = false -> (f hi <? fF) = true -> r = Some hi) /\
  ((f lo <? fF) = false -> (f hi <? fF) = false ->
   r = Some (0.5 * (gs_xU s + gs_xL s))).
Proof.
  intros Hgs Hconv s fF r.
  assert (Hr : r = Some (gs_pick f lo hi s)) by now apply converged_result.
  assert (Hm : minimum (snd (gs f lo hi tol maxI)) = fF).
  { destruct Hgs as [-> | ->].
    - unfold Async.goldenSectionMinimize, fF, s.
      destruct (gs_run f lo hi tol maxI) as [i s']. cbn [snd].
      destruct (i =? maxI)%Z; [reflexivity|].
      destruct (isNaN (gs_f2 s') || isNaN (gs_f1 s')); reflexivity.
    - unfold Sync.goldenSectionMinimize, fF, s.
      destruct (gs_run f lo hi tol maxI) as [i s']. cbn [snd].
      destruct (isNaN (gs_f2 s') || isNaN (gs_f1 s') || (i =? maxI)%Z);
        reflexivity. }
  split; [exact Hm|].
  rewrite Hr. unfold gs_pick, gs_fF, gs_xF. fold s. fold fF.
  destruct (f lo <? fF), (f hi <? fF); repeat split;
    intros; try discriminate; reflexivity.
Qed.

(** C9 (amended): in the asynchronous variant, for a budget of at least
    one, a loop that ends on its counter returns the midpoint with
    [status.converged = false] whatever the final probe values are (NaN
    included), and [undefined] is returned only when the counter is below
    the budget, the loop has ended on its width test and a final probe
    value is NaN. *)
Theorem budget_test_before_nan_test :
  (1 <= maxI)%Z ->
  let r := Async.goldenSectionMinimize f lo hi tol maxI in
  (budget_exhausted maxI run ->
   fst r = Some xF /\ converged (snd r) = false) /\
  (fst r = None ->
   (fst run < maxI)%Z /\ above_tolerance tol (snd run) = false /\
   (isNaN (gs_f2 (snd run)) || isNaN (gs_f1 (snd run))) = true).
Proof.
  intros Hm r. split.
  - intros Hex. apply budget_exhausted_iff in Hex; [|assumption].
    unfold r. rewrite (async_counter_at_budget Hex). split; reflexivity.
  - destruct (gs_run_exit f tol maxI lo hi) as (G & H1 & H2).
    unfold r in *. unfold Async.goldenSectionMinimize.
    destruct (gs_run f lo hi tol maxI) as [i s]. cbn [fst snd] in *.
    destruct (i =? maxI)%Z eqn:E; [discriminate|].
    destruct (isNaN (gs_f2 s) || isNaN (gs_f1 s)) eqn:N; [|discriminate].
    intros _. apply Z.eqb_neq in E.
    assert (Hlt : (i < maxI)%Z) by lia.
    unfold gs_guard in G. apply Z.ltb_lt in Hlt. rewrite Hlt in G.
    repeat split; [now apply Z.ltb_lt | exact G].
Qed.

End GoldenSectionClaims.

(** A budget of one on [[0, 1]]: the midpoint is returned. *)
Lemma exhausted_budget_result_witness :
  (1 <= 1)%Z /\
  budget_exhausted 1 (gs_run (fun x => x) 0 1 1e-8 1) /\
  Async.goldenSectionMinimize (fun x => x) 0 1 1e-8 1
    = (Some (gs_xF (snd (gs_run (fun x => x) 0 1 1e-8 1))),
       mkStatus 1 (gs_xF (snd (gs_run (fun x => x) 0 1 1e-8 1)))
                (gs_fF (snd (gs_run (fun x => x) 0 1 1e-8 1))) false).
Proof.
  split; [lia|]. split; [reflexivity|].
  destruct (exhausted_budget_result (fun x => x) 0 1 1e-8 1) as [H _];
    [lia | reflexivity | exact H].
Defined.

(** C3, as stated, fails: with a budget of zero the asynchronous variant
    ends on its counter, yet reports convergence and returns the end point
    [0], not the midpoint [0.5]; with a budget of one the synchronous variant
    returns NaN. *)
Lemma exhaustion_returns_midpoint_fails :
  ~ exhaustion_returns_midpoint Async.goldenSectionMinimize (fun x => x) 0 1 1e-8 0 /\
  ~ exhaustion_returns_midpoint Sync.goldenSectionMinimize (fun x => x) 0 1 1e-8 1.
Proof.
  split; intros H.
  - destruct H as [_ H]; [reflexivity | reflexivity |].
    vm_compute in H. discriminate H.
  - destruct H as [H _]; [reflexivity | reflexivity |].
    apply (f_equal (fun o => match o with Some x => is_nan x | None => false end)) in H.
    vm_compute in H. discriminate H.
Qed.

(** Every probe NaN, budget not reached. *)
Lemma nan_final_probe_result_witness :
  fst (Async.goldenSectionMinimize (fun _ => nan) 0 1 1e-8 100) = None /\
  fst (Sync.goldenSectionMinimize (fun _ => nan) 0 1 1e-8 100) = Some nan.
Proof.
  destruct (nan_final_probe_result (fun _ => nan) 0 1 1e-8 100) as [HA HS];
    [reflexivity|].
  rewrite HA, HS; [split; reflexivity | vm_compute; discriminate].
Defined.

(** C4, as stated, fails: with a budget of one and every probe NaN the
    asynchronous variant returns the midpoint [0.5]; and a first probe that
    is NaN is dropped by the next pass, after which the search converges to
    a number. *)
Lemma nan_probe_fails_fails :
  ~ nan_probe_fails Async.goldenSectionMinimize (fun _ => nan) 0 1 1e-8 1 /\
  ~ nan_probe_fails Async.goldenSectionMinimize nan_at_first_probe 0 1 1e-8 100.
Proof.
  split; intros H.
  - destruct H as [H _].
    + exists (gs_init (fun _ => nan) 0 1). split; [left; reflexivity | reflexivity].
    + vm_compute in H. discriminate H.
  - destruct H as [_ H].
    + exists (gs_init nan_at_first_probe 0 1). split; [left; reflexivity | reflexivity].
    + vm_compute in H. discriminate H.
Qed.

(** [-x^2] on [[-1, 2]]: only the value at the upper end point, [-4], is
    below the interior estimate, and the upper end point is returned. *)
Lemma lower_endpoint_first_witness :
  converged (snd (Async.goldenSectionMinimize (fun x => - x * x) (-1) 2 1e-8 100))
    = true /\
  fst (Async.goldenSectionMinimize (fun x => - x * x) (-1) 2 1e-8 100) = Some 2.
Proof.
  split; [reflexivity|].
  destruct (lower_endpoint_first (fun x => - x * x) (-1) 2 1e-8 100
              Async.goldenSectionMinimize (or_introl eq_refl))
    as (_ & _ & H & _); [reflexivity|].
  apply H; reflexivity.
Defined.

(** C8, as stated, fails: on [both_ends_low] over [[0, 1]] the search
    converges with [fF] about [7e-19]; the values at both end points, [-1]
    and [-2], are below it, and both variants return the lower end point
    [0], not the upper end point [1], where the value is the lower one. *)
Lemma endpoint_respectively_fails :
  ~ endpoint_respectively Async.goldenSectionMinimize both_ends_low 0 1 1e-8 100 /\
  ~ endpoint_respectively Sync.goldenSectionMinimize both_ends_low 0 1 1e-8 100.
Proof.
  split; intros H; destruct H as (_ & H & _); try reflexivity;
    specialize (H eq_refl); vm_compute in H; discriminate H.
Qed.

(** Every probe NaN and a budget of one: the midpoint is returned. *)
Lemma budget_test_before_nan_test_witness :
  fst (Async.goldenSectionMinimize (fun _ => nan) 0 1 1e-8 1) = Some 0.5 /\
  converged (snd (Async.goldenSectionMinimize (fun _ => nan) 0 1 1e-8 1)) = false.
Proof.
  destruct (budget_test_before_nan_test (fun _ => nan) 0 1 1e-8 1) as [H _];
    [lia|].
  destruct H as [H1 H2]; [reflexivity|].
  split; [exact H1 | exact H2].
Defined.

(** C9, as stated, fails: with a budget of zero and every probe NaN the loop
    ends on its counter, and the result is [undefined] although the width of
    the interval is above the tolerance. *)
Lemma budget_test_first_fails :
  ~ budget_test_first (fun _ => nan) 0 1 1e-8 0.
Proof.
  intros [_ H]. specialize (H eq_refl). vm_compute in H. discriminate H.
Qed.

(** * Arrays and [constrain] *)

Lemma get_nil (k : nat) : get [] k = nan.
Proof. destruct k; reflexivity. Qed.

Lemma get_set_same (x : vec) (v : float) : forall i, get (set x i v) i = v.
Proof.
  intros i. revert x. induction i as [|i IH]; intros [|a r]; cbn; try reflexivity;
    apply IH.
Qed.

Lemma get_set_other (v : float) : forall i x k, i <> k -> get (set x i v) k = get x k.
Proof.
  induction i as [|i IH]; intros [|a r] [|k] Hik; cbn; try reflexivity;
    try (exfalso; apply Hik; reflexivity).
  - now destruct k.
  - fold (get (set [] i v) k). rewrite IH by congruence. apply get_nil.
  - fold (get (set r i v) k). rewrite IH by congruence. reflexivity.
Qed.

Lemma length_set (v : float) : forall i x,
  length (set x i v) = Nat.max (length x) (S i).
Proof.
  induction i as [|i IH]; intros [|a r]; cbn [set length]; try reflexivity.
  - lia.
  - rewrite IH. cbn [length]. lia.
  - rewrite IH. lia.
Qed.

Section ConstrainFacts.

Variable options : option PowellOptions.

Lemma constrain_at_get_same (b : ibound) (i : nat) (x : vec) :
  get (constrain_at b i x) i = clamp b (get x i).
Proof.
  destruct b as [[lo hi]|]; [|reflexivity]. unfold constrain_at, clamp.
  destruct (isFinite lo), (isFinite hi); rewrite ?get_set_same; reflexivity.
Qed.

Lemma constrain_at_get_other (b : ibound) (i k : nat) (x : vec) :
  i <> k -> get (constrain_at b i x) k = get x k.
Proof.
  intros Hik. destruct b as [[lo hi]|]; [|reflexivity]. unfold constrain_at.
  destruct (isFinite lo), (isFinite hi); rewrite ?get_set_other by assumption;
    reflexivity.
Qed.

Lemma constrain_from_get_below (bs : list ibound) : forall i x k,
  k < i -> get (constrain_from bs i x) k = get x k.
Proof.
  induction bs as [|b bs IH]; intros i x k Hk; cbn [constrain_from];
    [reflexivity|].
  rewrite IH by lia. apply constrain_at_get_other. lia.
Qed.

Lemma constrain_from_get (bs : list ibound) : forall k i x b,
  nth_error bs k = Some b ->
  get (constrain_from bs i x) (i + k) = clamp b (get x (i + k)).
Proof.
  induction bs as [|b0 bs IH]; intros [|k] i x b Hb; cbn in Hb; try discriminate;
    cbn [constrain_from].
  - injection Hb as ->. rewrite Nat.add_0_r.
    rewrite constrain_from_get_below by lia. apply constrain_at_get_same.
  - replace (i + S k)%nat with (S i + k)%nat by lia.
    rewrite (IH k (S i) _ b Hb). f_equal. apply constrain_at_get_other. lia.
Qed.

(** After [constrain], the coordinate of a bounded dimension is the clamped
    one. *)
Lemma constrain_get (x : vec) (k : nat) (b : ibound) :
  nth_error (bounds_ options) k = Some b ->
  get (constrain options x) k = clamp b (get x k).
Proof. intros Hb. exact (constrain_from_get _ k 0 x b Hb). Qed.

Lemma Math_min_nan (hi x : float) :
  is_nan x = true -> is_nan (Math_min hi x) = true.
Proof.
  intros H. unfold Math_min. rewrite H, orb_true_r. reflexivity.
Qed.

(** A clamped coordinate is NaN or within the finite bounds, when these
    are in order. *)
Lemma clamp_within (lo hi v : float) :
  (isFinite lo = true -> isFinite hi = true -> (lo <=? hi) = true) ->
  is_nan (clamp (Some (lo, hi)) v) = true \/
  ((isFinite lo = true -> (lo <=? clamp (Some (lo, hi)) v) = true) /\
   (isFinite hi = true -> (clamp (Some (lo, hi)) v <=? hi) = true)).
Proof.
  intros Hord. unfold clamp.
  destruct (isFinite lo) eqn:Flo, (isFinite hi) eqn:Fhi.
  - destruct (Math_max_lower lo v (isFinite_not_nan _ Flo)) as [N | [L E]].
    + left. now apply Math_min_nan.
    + destruct (Math_min_upper hi (Math_max lo v) (isFinite_not_nan _ Fhi))
        as [N | [U [E' | E']]]; [now left | right ..]; split; intros _;
        try exact U; rewrite E'; auto.
  - destruct (Math_max_lower lo v (isFinite_not_nan _ Flo)) as [N | [L E]];
      [now left | right]. split; [intros _; exact L | discriminate].
  - destruct (Math_min_upper hi v (isFinite_not_nan _ Fhi)) as [N | [U E]];
      [now left | right]. split; [discriminate | intros _; exact U].
  - right. split; discriminate.
Qed.

(** Whatever [constrain] returns lies within the bounds, coordinate by
    coordinate, up to NaN. *)
Lemma constrain_within (x : vec) :
  ordered_bounds (bounds_ options) ->
  within_bounds_or_nan (bounds_ options) (constrain options x).
Proof.
  intros Hord i lo hi Hb. rewrite (constrain_get x i _ Hb).
  apply clamp_within. intros Flo Fhi. exact (Hord i lo hi Hb Flo Fhi).
Qed.

End ConstrainFacts.

(** * The structure of a run of [minimizePowell] *)

Section PowellFacts.

Variable lineMin : (float -> float) -> option MinimizeOptions -> option float.
Variable f : vec -> float.
Variable x0 : vec.
Variable options : option PowellOptions.

Local Abbreviation cycle_ := (cycle lineMin f x0 options).
Local Abbreviation body_ := (body lineMin f x0 options).
Local Abbreviation loop_ := (loop lineMin f x0 options).
Local Abbreviation lineSearch_ := (lineSearch lineMin f x0 options).
Local Abbreviation constrain_ := (constrain options).

(** The events of the searches over the direction set. *)
Lemma cycle_events (iter : Z) (u : list vec) : forall idx p,
  Forall (fun e => match e with
                   | Point q => exists x, q = constrain_ x
                   | Search c it u' _ _ _ => c = true /\ it = iter /\ u' = u
                   | Log _ _ _ _ => False
                   end)
         (snd (cycle_ iter u idx p)).
Proof.
  induction idx as [|i idx IH]; intros p; cbn [cycle]; [constructor|].
  destruct (nth_error u i) as [ui|]; [|constructor].
  destruct (lineSearch_ p ui) as [t|]; [|repeat constructor].
  destruct (is_zero_step t); [repeat constructor|].
  specialize (IH (constrain_ (add_step x0 t ui p))).
  destruct (cycle_ iter u idx (constrain_ (add_step x0 t ui p))) as [r tr].
  cbn [snd] in *. constructor; [repeat split|]. constructor; [|exact IH].
  eexists; reflexivity.
Qed.

(** The events of one pass through the body, and the direction set it
    leaves. *)
Lemma body_events (iter : Z) (p : vec) (u : list vec) (perr : float) :
  Forall (body_event x0 options iter u) (snd (body_ iter p u perr)) /\
  (forall p' u' perr', fst (body_ iter p u perr) = Continue (p', u', perr') ->
     exists un, u' = tl (reinit x0 iter u) ++ [un]).
Proof.
  unfold body.
  pose proof (cycle_events iter (reinit x0 iter u) (seq 0 (n x0)) p) as Hc.
  destruct (cycle_ iter (reinit x0 iter u) (seq 0 (n x0)) p) as [[q|o] tr].
  2:{ cbn [fst snd] in *. split; [|discriminate].
      eapply Forall_impl; [|exact Hc]. intros [q|[] it u' q ui t|]; cbn; intuition discriminate. }
  cbn [snd] in Hc.
  assert (Hc' : Forall (body_event x0 options iter u) tr).
  { eapply Forall_impl; [|exact Hc]. intros [q'|[] it u' q' ui t|]; cbn; intuition discriminate. }
  destruct (0 <? sqrt (sum_squares (displacement x0 q (map (get p) (seq 0 (n x0))))));
    [|cbn [fst snd]; split; [exact Hc' | discriminate]].
  set (un := map _ (displacement x0 q (map (get p) (seq 0 (n x0))))).
  assert (He : forall t, body_event x0 options iter u
                 (Search false iter (tl (reinit x0 iter u) ++ [un]) q un t)).
  { intros t. cbn. split; [reflexivity | eexists; reflexivity]. }
  destruct (lineSearch_ q un) as [t|].
  2:{ cbn [fst snd]. split; [|discriminate].
      apply Forall_app. split; [exact Hc' | constructor; [apply He | constructor]]. }
  destruct (is_zero_step t || negb (isFinite t)).
  { cbn [fst snd]. split; [|discriminate].
    apply Forall_app. split; [exact Hc' | constructor; [apply He | constructor]]. }
  assert (Hl : Forall (body_event x0 options iter u)
                 (Search false iter (tl (reinit x0 iter u) ++ [un]) q un (Some t)
                  :: Point (constrain_ (add_step x0 t un q))
                  :: (if verbose_ options
                      then [Log iter (sqrt (step_err x0 t un) / perr)
                                (constrain_ (add_step x0 t un q))
                                (f (constrain_ (add_step x0 t un q)))]
                      else []))).
  { constructor; [apply He|]. constructor; [eexists; reflexivity|].
    destruct (verbose_ options); repeat constructor. }
  destruct (sqrt (step_err x0 t un) / perr <? tol options); cbn [fst snd].
  - split; [|discriminate]. apply Forall_app. split; assumption.
  - split; [apply Forall_app; split; assumption|].
    intros p' u' perr' E. injection E as _ <- _. eexists; reflexivity.
Qed.

(** A property of the events holds along the loop when every pass
    establishes it and keeps the invariant on the direction set. *)
Lemma loop_events (I : Z -> list vec -> Prop) (Q : event -> Prop) :
  (forall iter p u perr,
      (1 <= iter < maxIter_ options)%Z -> I iter u ->
      Forall Q (snd (body_ iter p u perr)) /\
      (forall p' u' perr', fst (body_ iter p u perr) = Continue (p', u', perr') ->
         I (iter + 1)%Z u')) ->
  forall fuel iter p u perr,
    (0 <= iter)%Z -> I (iter + 1)%Z u ->
    Forall Q (snd (loop_ fuel iter p u perr)).
Proof.
  intros Hbody. induction fuel as [|k IH]; intros iter p u perr Hi HI;
    cbn [loop]; destruct (iter + 1 <? maxIter_ options)%Z eqn:E;
    try constructor.
  apply Z.ltb_lt in E.
  destruct (Hbody (iter + 1)%Z p u perr) as [HQ Hnext]; [lia | exact HI |].
  destruct (body_ (iter + 1)%Z p u perr) as [[[[p' u'] perr']|o] tr];
    cbn [fst snd] in *; [|exact HQ].
  specialize (IH (iter + 1)%Z p' u' perr').
  destruct (loop_ k (iter + 1)%Z p' u' perr') as [o tr'].
  cbn [snd] in *. apply Forall_app. split; [exact HQ|].
  apply IH; [lia|]. apply (Hnext p' u' perr'). reflexivity.
Qed.

(** The counter bounds the number of passes: fuel beyond it changes
    nothing. *)
Lemma loop_fuel (fuel : nat) : forall (extra : nat) iter p u perr,
  (maxIter_ options <= iter + 1 + Z.of_nat fuel)%Z ->
  loop_ (fuel + extra) iter p u perr = loop_ fuel iter p u perr.
Proof.
  induction fuel as [|k IH]; intros extra iter p u perr Hfuel.
  - cbn [Nat.add]. destruct extra as [|e]; [reflexivity|]. cbn [loop].
    destruct (iter + 1 <? maxIter_ options)%Z eqn:E; [|reflexivity].
    apply Z.ltb_lt in E. lia.
  - cbn [Nat.add loop].
    destruct (iter + 1 <? maxIter_ options)%Z eqn:E; [|reflexivity].
    destruct (body_ (iter + 1)%Z p u perr) as [[[[p' u'] perr']|o] tr];
      [|reflexivity].
    rewrite IH by lia. reflexivity.
Qed.

End PowellFacts.

(** * The properties of [minimizePowell] *)

Lemma points_app (tr1 tr2 : list event) :
  points (tr1 ++ tr2) = points tr1 ++ points tr2.
Proof.
  induction tr1 as [|[q| |] tr1 IH]; cbn; rewrite ?IH; reflexivity.
Qed.

Lemma Forall_points (P : vec -> Prop) (tr : list event) :
  Forall (fun e => match e with Point q => P q | _ => True end) tr ->
  Forall P (points tr).
Proof.
  induction 1 as [|[q| |] tr H HF IH]; cbn; auto.
Qed.

Lemma length_basis (x0 : vec) : length (basis x0) = n x0.
Proof. unfold basis. now rewrite length_map, length_seq. Qed.

Lemma length_reinit (x0 : vec) (iter : Z) (u : list vec) :
  length u = n x0 -> length (reinit x0 iter u) = n x0.
Proof.
  intros H. unfold reinit.
  destruct (Nat.ltb 0 (n x0) && (Z.rem iter (Z.of_nat (n x0)) =? 0)%Z);
    [apply length_basis | exact H].
Qed.

Lemma reinit_multiple (x0 : vec) (iter : Z) (u : list vec) :
  (1 <= n x0)%nat -> (Z.of_nat (n x0) | iter)%Z -> reinit x0 iter u = basis x0.
Proof.
  intros Hn Hd. unfold reinit.
  apply Z.rem_divide in Hd; [|lia]. rewrite Hd, Z.eqb_refl.
  apply Nat.ltb_lt in Hn. now rewrite Hn.
Qed.

Lemma nth_map_seq {A : Type} (g : nat -> A) (m i : nat) (d : A) :
  (i < m)%nat -> nth i (map g (seq 0 m)) d = g i.
Proof.
  intros H. rewrite (nth_indep _ d (g 0%nat)) by now rewrite length_map, length_seq.
  now rewrite map_nth, seq_nth.
Qed.

(** The directions the program starts from, and resets to, are the standard
    basis. *)
Lemma basis_standard (x0 : vec) : standard_basis (n x0) (basis x0).
Proof.
  split; [apply length_basis|]. intros i Hi.
  assert (E : nth i (basis x0) []
              = map (fun j => if Nat.eqb i j then 1 else 0) (seq 0 (n x0)))
    by (unfold basis;
        exact (nth_map_seq
                 (fun i => map (fun j => if Nat.eqb i j then 1 else 0)
                               (seq 0 (n x0))) (n x0) i [] Hi)).
  rewrite E. split.
  - now rewrite length_map, length_seq.
  - intros j Hj.
    exact (nth_map_seq (fun j => if Nat.eqb i j then 1 else 0) (n x0) j nan Hj).
Qed.

Section PowellClaims.

Variable lineMin : (float -> float) -> option MinimizeOptions -> option float.
Variable f : vec -> float.
Variable x0 : vec.
Variable options : option PowellOptions.

Local Abbreviation run := (minimizePowell lineMin f x0 options).
Local Abbreviation start := (constrain options x0).
Local Abbreviation main_loop :=
  (loop lineMin f x0 options (Z.to_nat (maxIter_ options)) 0 start (basis x0) 0).

Lemma run_unfold : run = (fst main_loop, Point start :: snd main_loop).
Proof. unfold minimizePowell. now destruct main_loop. Qed.

(** C5 (amended): when the two bounds of every dimension that has both
    finite are in order, every point recorded in [status.points], the
    clamped copy of [x0] included, has each coordinate of a bounded
    dimension either NaN or within the finite bounds of the dimension. *)
Theorem recorded_points_within_bounds :
  ordered_bounds (bounds_ options) ->
  Forall (within_bounds_or_nan (bounds_ options)) (points (snd run)).
Proof.
  intros Hord. apply Forall_points. rewrite run_unfold. cbn [snd].
  assert (HQ : forall e, (match e with
                          | Point q => exists x, q = constrain options x
                          | _ => True end) ->
                         match e with
                         | Point q => within_bounds_or_nan (bounds_ options) q
                         | _ => True end).
  { intros [q| |]; auto. intros [x ->]. now apply constrain_within. }
  constructor; [now apply constrain_within|].
  eapply Forall_impl; [exact HQ|].
  apply (loop_events lineMin f x0 options (fun _ _ => True)); [|lia|exact I].
  intros iter p u perr _ _. split; [|auto].
  eapply Forall_impl; [|apply body_events].
  intros [q|[] it u' q ui t|]; cbn; auto.
Qed.

(** C6: in a run with [n = x0.length >= 1], every line search starts with
    a direction set of exactly [n] vectors, and the searches over the
    direction set of an iteration whose index is a multiple of [n] run
    with the standard orthonormal basis of dimension [n]: [n] vectors of
    [n] coordinates, the [i]-th with [1] at coordinate [i] and [0]
    elsewhere. *)
Theorem direction_set_invariant :
  (1 <= n x0)%nat ->
  forall c iter u p ui tmin,
    In (Search c iter u p ui tmin) (snd run) ->
    length u = n x0 /\
    (c = true -> (Z.of_nat (n x0) | iter)%Z ->
     forall i, (i < n x0)%nat ->
       length (nth i u []) = n x0 /\
       forall j, (j < n x0)%nat ->
         nth j (nth i u []) nan = (if Nat.eqb i j then 1 else 0)).
Proof.
  intros Hn c iter u p ui tmin Hin.
  enough (H : length u = n x0 /\
              (c = true -> (Z.of_nat (n x0) | iter)%Z ->
               standard_basis (n x0) u)).
  { destruct H as [Hl Hb]. split; [exact Hl|].
    intros Hc Hd. exact (proj2 (Hb Hc Hd)). }
  set (Q := fun e => match e with
                     | Search c it u' _ _ _ =>
                         length u' = n x0 /\
                         (c = true -> (Z.of_nat (n x0) | it)%Z ->
                          standard_basis (n x0) u')
                     | _ => True end).
  assert (HQ : Forall Q (snd run)).
  { rewrite run_unfold. cbn [snd]. constructor; [exact I|].
    apply (loop_events lineMin f x0 options (fun _ u => length u = n x0));
      [|lia|apply length_basis].
    intros it q v perr _ Hv.
    destruct (body_events lineMin f x0 options it q v perr) as [Hev Hnext].
    assert (Htl : forall un : vec, length (tl (reinit x0 it v) ++ [un]) = n x0).
    { intros un. rewrite length_app. cbn [length].
      pose proof (length_reinit x0 it v Hv) as Hr.
      destruct (reinit x0 it v); cbn [tl length] in *; lia. }
    split.
    - eapply Forall_impl; [|exact Hev].
      intros [q'|[] it' u' q' ui' t'|]; cbn; auto.
      + intros [-> ->]. split; [now apply length_reinit|].
        intros _ Hd. rewrite reinit_multiple by assumption.
        apply basis_standard.
      + intros [-> [un ->]]. split; [apply Htl | discriminate].
    - intros p' u' perr' E. destruct (Hnext p' u' perr' E) as [un ->]. apply Htl. }
  rewrite Forall_forall in HQ. exact (HQ _ Hin).
Qed.

(** [loop] is [loop_with] for an integer budget. *)
Lemma loop_with_integer_budget : forall fuel iter p u perr,
  fst (loop_with lineMin f x0 options (integer_budget (maxIter_ options))
                 fuel iter p u perr)
  = loop lineMin f x0 options fuel iter p u perr.
Proof.
  induction fuel as [|k IH]; intros iter p u perr; cbn [loop_with loop];
    unfold integer_budget at 1;
    destruct (iter + 1 <? maxIter_ options)%Z; try reflexivity.
  destruct (body lineMin f x0 options (iter + 1)%Z p u perr)
    as [[[[p' u'] perr']|o] tr]; [|reflexivity].
  rewrite <- (IH (iter + 1)%Z p' u' perr').
  now destruct (loop_with lineMin f x0 options
                  (integer_budget (maxIter_ options)) k (iter + 1)%Z p' u' perr')
    as [[o tr'] j].
Qed.

(** For an integer budget the counter bounds the number of passes. *)
Lemma loop_with_passes : forall fuel iter p u perr,
  (0 <= iter)%Z ->
  (Z.of_nat (snd (loop_with lineMin f x0 options
                            (integer_budget (maxIter_ options)) fuel iter p u perr))
   <= Z.max 0 (maxIter_ options - 1 - iter))%Z.
Proof.
  induction fuel as [|k IH]; intros iter p u perr Hi; cbn [loop_with];
    unfold integer_budget at 1;
    destruct (iter + 1 <? maxIter_ options)%Z eqn:E; cbn [snd]; try lia.
  apply Z.ltb_lt in E.
  destruct (body lineMin f x0 options (iter + 1)%Z p u perr)
    as [[[[p' u'] perr']|o] tr]; [|cbn [snd]; lia].
  specialize (IH (iter + 1)%Z p' u' perr' ltac:(lia)).
  destruct (loop_with lineMin f x0 options
              (integer_budget (maxIter_ options)) k (iter + 1)%Z p' u' perr')
    as [[o tr'] j].
  cbn [snd] in *. lia.
Qed.

(** C10 (amended): for an integer [maxIter] the outer loop makes at most
    [max(0, maxIter - 1)] passes, the indices of which run from [1] to
    [maxIter - 1]; with an integer [maxIter <= 1], and with any number
    [maxIter <= 1], the call makes no pass and no line search, does not
    evaluate [f] and returns the clamped copy of [x0], the only point it
    records. *)
Theorem outer_loop_budget :
  fst (minimizePowell_passes lineMin f x0 options) = run /\
  (Z.of_nat (snd (minimizePowell_passes lineMin f x0 options))
   <= Z.max 0 (maxIter_ options - 1))%Z /\
  (forall c iter u p ui tmin,
      In (Search c iter u p ui tmin) (snd run) ->
      (1 <= iter <= maxIter_ options - 1)%Z) /\
  ((maxIter_ options <= 1)%Z ->
   minimizePowell_passes lineMin f x0 options
   = (Returned (Some start), [Point start], 0%nat)) /\
  (forall (m : float) (fuel : nat), (m <=? 1) = true ->
     minimizePowell_with lineMin f x0 options (number_budget m) fuel
     = (Returned (Some start), [Point start], 0%nat)).
Proof.
  assert (Hrun : fst (minimizePowell_passes lineMin f x0 options) = run).
  { unfold minimizePowell_passes, minimizePowell_with, minimizePowell.
    rewrite <- (loop_with_integer_budget (Z.to_nat (maxIter_ options)) 0 start
                  (basis x0) 0).
    now destruct (loop_with lineMin f x0 options
                    (integer_budget (maxIter_ options))
                    (Z.to_nat (maxIter_ options)) 0 start (basis x0) 0)
      as [[o tr] k]. }
  split; [exact Hrun|]. split; [|split; [|split]].
  - pose proof (loop_with_passes (Z.to_nat (maxIter_ options)) 0 start
                  (basis x0) 0 ltac:(lia)) as H.
    unfold minimizePowell_passes, minimizePowell_with.
    destruct (loop_with lineMin f x0 options
                (integer_budget (maxIter_ options))
                (Z.to_nat (maxIter_ options)) 0 start (basis x0) 0)
      as [[o tr] k].
    cbn [snd] in *. lia.
  - intros c iter u p ui tmin Hin.
    set (Q := fun e => match e with
                       | Search _ it _ _ _ _ => (1 <= it <= maxIter_ options - 1)%Z
                       | _ => True end).
    assert (HQ : Forall Q (snd run)).
    { rewrite run_unfold. cbn [snd]. constructor; [exact I|].
      apply (loop_events lineMin f x0 options (fun _ _ => True)); [|lia|exact I].
      intros it q v perr Hit _. split; [|auto].
      eapply Forall_impl; [|apply body_events].
      intros [q'|[] it' u' q' ui' t'|]; cbn; auto; intros [-> _]; lia. }
    rewrite Forall_forall in HQ. exact (HQ _ Hin).
  - intros Hm. unfold minimizePowell_passes, minimizePowell_with.
    destruct (Z.to_nat (maxIter_ options)); cbn [loop_with];
      unfold integer_budget;
      replace (0 + 1 <? maxIter_ options)%Z with false
        by (symmetry; apply Z.ltb_ge; lia);
      reflexivity.
  - intros m fuel Hm. unfold minimizePowell_with.
    assert (Ht : number_budget m (0 + 1) = false)
      by (apply (leb_not_ltb m 1 Hm)).
    destruct fuel; cbn [loop_with]; rewrite Ht; reflexivity.
Qed.

End PowellClaims.

(** * The iteration indices along a run *)

Lemma iteration_indices_app (tr1 tr2 : list event) :
  iteration_indices (tr1 ++ tr2) = iteration_indices tr1 ++ iteration_indices tr2.
Proof.
  induction tr1 as [|[q| |] tr1 IH]; cbn; rewrite ?IH; reflexivity.
Qed.

Lemma StronglySorted_constant_then (i : Z) (l1 l2 : list Z) :
  Forall (eq i) l1 -> Forall (fun j => (i < j)%Z) l2 ->
  StronglySorted Z.le l2 -> StronglySorted Z.le (l1 ++ l2).
Proof.
  intros H1 H2 HS. induction l1 as [|a l1 IH]; cbn; [exact HS|].
  apply Forall_cons_iff in H1. destruct H1 as [<- H1].
  constructor; [exact (IH H1)|]. apply Forall_app. split.
  - eapply Forall_impl; [|exact H1]. intros j <-. apply Z.le_refl.
  - eapply Forall_impl; [|exact H2]. intros j Hj. now apply Z.lt_le_incl.
Qed.

Section IterationIndices.

Variable lineMin : (float -> float) -> option MinimizeOptions -> option float.
Variable f : vec -> float.
Variable x0 : vec.
Variable options : option PowellOptions.

Lemma body_indices (iter : Z) (p : vec) (u : list vec) (perr : float) :
  Forall (eq iter)
         (iteration_indices (snd (body lineMin f x0 options iter p u perr))).
Proof.
  destruct (body_events lineMin f x0 options iter p u perr) as [H _].
  induction H as [|[q|[] it u' q ui t|it r q fq] tr He _ IH]; cbn; auto;
    constructor; auto; cbn in He; intuition congruence.
Qed.

(** Every pass of the outer loop has an index of its own: along the trace
    the indices never decrease, and those of a pass are above those of the
    passes before. *)
Lemma loop_indices : forall fuel iter p u perr,
  StronglySorted Z.le
    (iteration_indices (snd (loop lineMin f x0 options fuel iter p u perr))) /\
  Forall (fun j => (iter < j)%Z)
    (iteration_indices (snd (loop lineMin f x0 options fuel iter p u perr))).
Proof.
  induction fuel as [|k IH]; intros iter p u perr; cbn [loop];
    destruct (iter + 1 <? maxIter_ options)%Z;
    try (split; constructor).
  pose proof (body_indices (iter + 1)%Z p u perr) as Hb.
  destruct (body lineMin f x0 options (iter + 1)%Z p u perr)
    as [[[[p' u'] perr']|o] tr]; cbn [snd] in *.
  - specialize (IH (iter + 1)%Z p' u' perr').
    destruct (loop lineMin f x0 options k (iter + 1)%Z p' u' perr') as [o tr'].
    cbn [snd] in *. destruct IH as [HS HF]. rewrite iteration_indices_app. split.
    + now apply (StronglySorted_constant_then (iter + 1)%Z).
    + apply Forall_app. split.
      * eapply Forall_impl; [|exact Hb]. intros j <-; cbv beta; lia.
      * eapply Forall_impl; [|exact HF]. intros j Hj; cbv beta in *; lia.
  - split.
    + rewrite <- (app_nil_r (iteration_indices tr)).
      apply (StronglySorted_constant_then (iter + 1)%Z); auto; constructor.
    + eapply Forall_impl; [|exact Hb]. intros j <-; cbv beta; lia.
Qed.

Lemma iteration_indices_increase :
  StronglySorted Z.le
    (iteration_indices (snd (minimizePowell lineMin f x0 options))).
Proof. rewrite run_unfold. cbn [snd iteration_indices]. apply loop_indices. Qed.

End IterationIndices.

(** * The searches that end the call *)

Lemma ends_on_stop_nil (o : outcome) : ends_on_stop o [].
Proof. intros [|a pre] e post r H; discriminate H. Qed.

Lemma ends_on_stop_cons (o : outcome) (a : event) (tr : list event) :
  stops a = None -> ends_on_stop o tr -> ends_on_stop o (a :: tr).
Proof.
  intros Ha Htr [|b pre] e post r H He.
  - cbn in H. injection H as -> ->. congruence.
  - cbn in H. injection H as -> H. exact (Htr pre e post r H He).
Qed.

Lemma ends_on_stop_app (o : outcome) (tr1 tr2 : list event) :
  Forall (fun e => stops e = None) tr1 ->
  ends_on_stop o tr2 -> ends_on_stop o (tr1 ++ tr2).
Proof.
  induction 1 as [|a tr1 Ha _ IH]; intros H2; cbn; [exact H2|].
  apply ends_on_stop_cons; auto.
Qed.

Lemma ends_on_stop_clean (o : outcome) (tr : list event) :
  Forall (fun e => stops e = None) tr -> ends_on_stop o tr.
Proof.
  intros H. rewrite <- (app_nil_r tr).
  apply ends_on_stop_app; [exact H | apply ends_on_stop_nil].
Qed.

Lemma ends_on_stop_last (e : event) (r : option vec) :
  stops e = Some r -> ends_on_stop (Returned r) [e].
Proof.
  intros He [|a pre] e' post r' H He'.
  - cbn in H. injection H as -> <-. split; [reflexivity | congruence].
  - cbn in H. injection H as _ H. destruct pre; discriminate H.
Qed.

Section StoppingSearches.

Variable lineMin : (float -> float) -> option MinimizeOptions -> option float.
Variable f : vec -> float.
Variable x0 : vec.
Variable options : option PowellOptions.

Local Abbreviation cycle_ := (cycle lineMin f x0 options).
Local Abbreviation body_ := (body lineMin f x0 options).
Local Abbreviation loop_ := (loop lineMin f x0 options).
Local Abbreviation lineSearch_ := (lineSearch lineMin f x0 options).

(** The searches over the direction set go on only after searches that do
    not end the call. *)
Lemma cycle_stops (iter : Z) (u : list vec) : forall idx p,
  match fst (cycle_ iter u idx p) with
  | Continue _ => Forall (fun e => stops e = None) (snd (cycle_ iter u idx p))
  | Stop o => ends_on_stop o (snd (cycle_ iter u idx p))
  end.
Proof.
  induction idx as [|i idx IH]; intros p; cbn [cycle]; [constructor|].
  destruct (nth_error u i) as [ui|]; [|apply ends_on_stop_nil].
  destruct (lineSearch_ p ui) as [t|] eqn:Et; cbn [fst snd].
  2:{ now apply ends_on_stop_last. }
  destruct (is_zero_step t) eqn:Ez; cbn [fst snd].
  { apply ends_on_stop_last. cbn [stops]. now rewrite Ez. }
  assert (He : stops (Search true iter u p ui (Some t)) = None)
    by (cbn [stops]; now rewrite Ez).
  specialize (IH (constrain options (add_step x0 t ui p))).
  destruct (cycle_ iter u idx (constrain options (add_step x0 t ui p)))
    as [[q|o] tr]; cbn [fst snd] in *.
  - constructor; [exact He|]. constructor; [reflexivity | exact IH].
  - apply ends_on_stop_cons; [exact He|].
    apply ends_on_stop_cons; [reflexivity | exact IH].
Qed.

Lemma body_stops (iter : Z) (p : vec) (u : list vec) (perr : float) :
  match fst (body_ iter p u perr) with
  | Continue _ => Forall (fun e => stops e = None) (snd (body_ iter p u perr))
  | Stop o => ends_on_stop o (snd (body_ iter p u perr))
  end.
Proof.
  unfold body.
  pose proof (cycle_stops iter (reinit x0 iter u) (seq 0 (n x0)) p) as Hc.
  destruct (cycle_ iter (reinit x0 iter u) (seq 0 (n x0)) p) as [[q|o] tr];
    cbn [fst snd] in Hc; [|exact Hc].
  destruct (0 <? sqrt (sum_squares (displacement x0 q (map (get p) (seq 0 (n x0))))));
    [|cbn [fst snd]; now apply ends_on_stop_clean].
  set (un := map _ (displacement x0 q (map (get p) (seq 0 (n x0))))).
  destruct (lineSearch_ q un) as [t|]; cbn [fst snd].
  2:{ apply ends_on_stop_app; [exact Hc | now apply ends_on_stop_last]. }
  destruct (is_zero_step t || negb (isFinite t)) eqn:Ez; cbn [fst snd].
  { apply ends_on_stop_app; [exact Hc|]. apply ends_on_stop_last.
    cbn [stops]. now rewrite Ez. }
  assert (Hl : forall q',
             Forall (fun e => stops e = None)
               (tr ++ Search false iter (tl (reinit x0 iter u) ++ [un]) q un (Some t)
                   :: Point q'
                   :: (if verbose_ options
                       then [Log iter (sqrt (step_err x0 t un) / perr) q' (f q')]
                       else []))).
  { intros q'. apply Forall_app. split; [exact Hc|].
    constructor; [cbn [stops]; now rewrite Ez|]. constructor; [reflexivity|].
    destruct (verbose_ options); repeat constructor. }
  destruct (sqrt (step_err x0 t un) / perr <? tol options); cbn [fst snd].
  - apply ends_on_stop_clean. apply Hl.
  - apply Hl.
Qed.

Lemma loop_stops : forall fuel iter p u perr,
  ends_on_stop (fst (loop_ fuel iter p u perr)) (snd (loop_ fuel iter p u perr)).
Proof.
  induction fuel as [|k IH]; intros iter p u perr; cbn [loop];
    destruct (iter + 1 <? maxIter_ options)%Z;
    try apply ends_on_stop_nil.
  pose proof (body_stops (iter + 1)%Z p u perr) as Hb.
  destruct (body_ (iter + 1)%Z p u perr) as [[[[p' u'] perr']|o] tr];
    cbn [fst snd] in *; [|exact Hb].
  specialize (IH (iter + 1)%Z p' u' perr').
  destruct (loop_ k (iter + 1)%Z p' u' perr') as [o tr']. cbn [fst snd] in *.
  now apply ends_on_stop_app.
Qed.

(** A search after which the call returns is the last thing the call
    does. *)
Lemma minimizePowell_stops :
  ends_on_stop (fst (minimizePowell lineMin f x0 options))
               (snd (minimizePowell lineMin f x0 options)).
Proof.
  rewrite run_unfold. cbn [fst snd].
  apply ends_on_stop_cons; [reflexivity | apply loop_stops].
Qed.

(** C7: when a line search over the direction set returns a step equal to
    [0] (the comparison [tmin === 0]), [minimizePowell] returns the
    current point as it stands, and the search is the last thing the call
    does: no line search and no update of the point follows. *)
Theorem zero_step_returns_current_point :
  forall pre post iter u p ui t,
    snd (minimizePowell lineMin f x0 options)
      = pre ++ Search true iter u p ui (Some t) :: post ->
    is_zero_step t = true ->
    post = [] /\ fst (minimizePowell lineMin f x0 options) = Returned (Some p).
Proof.
  intros pre post iter u p ui t Htr Hz.
  apply (minimizePowell_stops pre _ post (Some p) Htr). cbn [stops]. now rewrite Hz.
Qed.

(** X19: a line search that returns [undefined] makes the call return
    [undefined] at once. *)
Lemma undefined_step_returns_undefined :
  forall pre post c iter u p ui,
    snd (minimizePowell lineMin f x0 options)
      = pre ++ Search c iter u p ui None :: post ->
    post = [] /\ fst (minimizePowell lineMin f x0 options) = Returned None.
Proof.
  intros pre post c iter u p ui Htr.
  apply (minimizePowell_stops pre _ post None Htr). now destruct c.
Qed.

End StoppingSearches.

(** * No direction is ever absent *)

Section NoTypeError.

Variable lineMin : (float -> float) -> option MinimizeOptions -> option float.
Variable f : vec -> float.
Variable x0 : vec.
Variable options : option PowellOptions.

Lemma cycle_no_type_error (iter : Z) (u : list vec) : forall idx p,
  (forall i, In i idx -> (i < length u)%nat) ->
  fst (cycle lineMin f x0 options iter u idx p) <> Stop TypeError.
Proof.
  induction idx as [|i idx IH]; intros p Hidx; cbn [cycle]; [discriminate|].
  destruct (nth_error u i) as [ui|] eqn:Eu.
  2:{ apply nth_error_None in Eu. specialize (Hidx i (or_introl eq_refl)). lia. }
  destruct (lineSearch lineMin f x0 options p ui) as [t|]; [|discriminate].
  destruct (is_zero_step t); [discriminate|].
  specialize (IH (constrain options (add_step x0 t ui p))
                 (fun j Hj => Hidx j (or_intror Hj))).
  now destruct (cycle lineMin f x0 options iter u idx
                      (constrain options (add_step x0 t ui p))).
Qed.

Lemma body_no_type_error (iter : Z) (p : vec) (u : list vec) (perr : float) :
  (n x0 <= length u)%nat ->
  fst (body lineMin f x0 options iter p u perr) <> Stop TypeError /\
  (forall p' u' perr',
      fst (body lineMin f x0 options iter p u perr) = Continue (p', u', perr') ->
      (n x0 <= length u')%nat).
Proof.
  intros Hu.
  assert (Hr : (n x0 <= length (reinit x0 iter u))%nat).
  { unfold reinit.
    destruct (Nat.ltb 0 (n x0) && (Z.rem iter (Z.of_nat (n x0)) =? 0)%Z);
      [rewrite length_basis; lia | exact Hu]. }
  split.
  - unfold body.
    pose proof (cycle_no_type_error iter (reinit x0 iter u) (seq 0 (n x0)) p) as Hc.
    destruct (cycle lineMin f x0 options iter (reinit x0 iter u) (seq 0 (n x0)) p)
      as [[q|o] tr]; cbn [fst] in *.
    + destruct (0 <? _); [|discriminate].
      destruct (lineSearch lineMin f x0 options q _) as [t|]; [|discriminate].
      destruct (is_zero_step t || negb (isFinite t)); [discriminate|].
      destruct (_ <? tol options); discriminate.
    + intros E. injection E as ->. apply Hc; [|reflexivity].
      intros i Hi. apply in_seq in Hi. lia.
  - intros p' u' perr' E.
    destruct (body_events lineMin f x0 options iter p u perr) as [_ Hnext].
    destruct (Hnext p' u' perr' E) as [un ->]. rewrite length_app. cbn [length].
    destruct (reinit x0 iter u); cbn [tl length] in *; lia.
Qed.

(** X18: the call never reads an element of an absent direction: at every
    search over the direction set, [u[i]] is there for each [i < n]. *)
Lemma minimizePowell_no_type_error :
  fst (minimizePowell lineMin f x0 options) <> TypeError.
Proof.
  rewrite run_unfold. cbn [fst].
  assert (H : forall fuel iter p u perr, (n x0 <= length u)%nat ->
                fst (loop lineMin f x0 options fuel iter p u perr) <> TypeError).
  { induction fuel as [|k IH]; intros iter p u perr Hu; cbn [loop];
      destruct (iter + 1 <? maxIter_ options)%Z; try discriminate.
    destruct (body_no_type_error (iter + 1)%Z p u perr Hu) as [Hb Hnext].
    destruct (body lineMin f x0 options (iter + 1)%Z p u perr)
      as [[[[p' u'] perr']|o] tr]; cbn [fst] in *.
    - specialize (IH (iter + 1)%Z p' u' perr' (Hnext p' u' perr' eq_refl)).
      now destruct (loop lineMin f x0 options k (iter + 1)%Z p' u' perr').
    - intros ->. now apply Hb. }
  apply H. rewrite length_basis. lia.
Qed.

End NoTypeError.

(** * A failed line search *)






(** ** The synchronous routine on an objective that is NaN *)

Section NaNObjective.

Variable g : float -> float.
Hypothesis g_nan : forall t, g t = nan.




End NaNObjective.


(** With the asynchronous routine the same search returns [undefined], and
    so does the call. *)
Lemma nan_objective_returns_undefined_async (br : bracketer) :
  minimizePowell (lineMinimizer Async.goldenSectionMinimize br)
                 (fun _ => nan) [0.5] (withBounds [Some (0, 1)])
  = (Returned None, [Point [0.5]; Search true 1 [[1]] [0.5] [1] None]).
Proof. vm_compute. reflexivity. Qed.

(** * The step interval of [bound] *)



(** C1: along the direction [[-1]] from [[0]] within the bounds [[0, 1]],
    the steps that keep the point within the bounds are those of [[-1, 0]],
    which is the interval of the specification; [bound] returns
    [[-Infinity, Infinity]].  The step [10] lies in the interval [bound]
    returns and leads to [-10], below the lower bound. *)
Theorem bound_negative_direction :
  bound [0.5] (withBounds [Some (0, 1)]) [0] [-1] = (neg_infinity, infinity) /\
  feasible_steps [Some (0, 1)] [0] [-1] = (-1, -0) /\
  (get [0] 0 + get [-1] 0 * 10 <? 0) = true.
Proof. repeat split; reflexivity. Qed.

(** The call of [bound] above is the one of the extra search in the first
    iteration of the run from [[0.5]] on [(x + 10)^2] within [[0, 1]]: the
    search over the basis moves the point to the lower bound, the new
    direction is [[-1]], and the extra search, left unbounded, returns the
    step to the free minimum [-10]; the point is then clamped back to [0]. *)
Lemma bound_negative_direction_in_run :
  exists tmin rest,
    snd (minimizePowell lineMinExample
           (fun v => (get v 0 + 10) * (get v 0 + 10)) [0.5]
           (withBounds [Some (0, 1)]))
    = Point [0.5] :: Search true 1 [[1]] [0.5] [1] (Some (-0.5))
        :: Point [0] :: Search false 1 [[-1]] [0] [-1] (Some tmin)
        :: Point [0] :: rest /\
    (1 <? tmin) = true.
Proof. eexists. eexists. vm_compute. split; reflexivity. Qed.

(** * Runs of [minimizePowell] *)

(** C5, as stated, fails: with the bounds [[1, 0]] the clamped copy of
    [[0.5]] is [[0]], below the lower bound; and the clamped copy of
    [[NaN]] is [[NaN]], which satisfies no comparison. *)
Lemma points_within_bounds_fails :
  ~ points_within_bounds lineMinExample (fun v => get v 0 * get v 0) [0.5]
      (withBoundsMaxIter [Some (1, 0)] 1) /\
  ~ points_within_bounds lineMinExample (fun v => get v 0 * get v 0) [nan]
      (withBoundsMaxIter [Some (0, 1)] 1).
Proof.
  split; intros H; unfold points_within_bounds in H; rewrite run_unfold in H;
    cbn [snd points] in H; apply Forall_inv in H.
  - destruct (H 0%nat 1 0 eq_refl) as [H1 _]. specialize (H1 eq_refl).
    vm_compute in H1. discriminate H1.
  - destruct (H 0%nat 0 1 eq_refl) as [H1 _]. specialize (H1 eq_refl).
    vm_compute in H1. discriminate H1.
Qed.

(** With the bracketing routine of the specification, a failed line search
    of a run on valid input leaves NaN coordinates in a recorded point: the
    second search of the first iteration is unbounded and fails in the
    bracketing routine, and the line minimizer returns NaN. *)
Lemma failed_search_records_nan_point :
  points (snd (minimizePowell lineMinExample
                 (fun v => get v 0 * get v 0 - get v 1 * get v 1)
                 [0.5; 0] (withBounds [Some (0, 1); None])))
  = [[0.5; 0]; [0; 0]; [nan; nan]].
Proof. vm_compute. reflexivity. Qed.

Lemma ordered_example : ordered_bounds [Some (0, 1); None].
Proof.
  intros [|[|i]] lo hi H; cbn in H.
  - injection H as <- <-. reflexivity.
  - discriminate H.
  - destruct i; discriminate H.
Defined.

(** The run above, whose last point is [[NaN, NaN]]. *)
Lemma recorded_points_within_bounds_witness :
  Forall (within_bounds_or_nan [Some (0, 1); None])
         (points (snd (minimizePowell lineMinExample
                         (fun v => get v 0 * get v 0 - get v 1 * get v 1)
                         [0.5; 0] (withBounds [Some (0, 1); None])))).
Proof.
  exact (recorded_points_within_bounds lineMinExample
           (fun v => get v 0 * get v 0 - get v 1 * get v 1)
           [0.5; 0] (withBounds [Some (0, 1); None]) ordered_example).
Defined.

(** Every line search of the run on [valley] from [[0, 0]] within
    [[0, 10]] in both dimensions is over a finite interval: the run is the
    same for every bracketing routine, none being called. *)
Lemma valley_run_any_bracketer (br : bracketer) :
  minimizePowell (lineMinimizer Async.goldenSectionMinimize br) valley [0; 0]
                 (withBoundsMaxIter valleyBounds 4)
  = minimizePowell lineMinExample valley [0; 0] (withBoundsMaxIter valleyBounds 4) /\
  minimizePowell_with (lineMinimizer Async.goldenSectionMinimize br) valley [0; 0]
                      (withBounds valleyBounds) (number_budget 1.5) 2
  = minimizePowell_with lineMinExample valley [0; 0]
                        (withBounds valleyBounds) (number_budget 1.5) 2.
Proof. split; vm_compute; reflexivity. Qed.

(** The run on [valley] from [[0, 0]] within [[0, 10]] in both dimensions
    with [maxIter = 4]: three passes, all searches over finite intervals.
    The first iteration ends with the direction set
    [[[0, 1], [0.48..., 0.87...]]] (the first vector dropped, the new
    direction appended); the searches of the second iteration, whose index
    is a multiple of [n = 2], run with the standard basis again, and those
    of the third with the set the second has left. *)
Lemma direction_set_invariant_witness :
  In (Search true 2 [[1; 0]; [0; 1]]
             [1.5403726537088136; 2.8006775741254906] [1; 0]
             (Some 1.4783635421809698))
     (snd (minimizePowell lineMinExample valley [0; 0]
             (withBoundsMaxIter valleyBounds 4))) /\
  In (Search true 3 [[0; 1]; [0.96586963118392577; 0.25902867709315008]]
             [3.5311287644696385; 3.3345621742173286] [0; 1]
             (Some 0.28181590540337897))
     (snd (minimizePowell lineMinExample valley [0; 0]
             (withBoundsMaxIter valleyBounds 4))) /\
  standard_basis 2 [[1; 0]; [0; 1]] /\
  length [[0; 1]; [0.96586963118392577; 0.25902867709315008]] = 2%nat.
Proof.
  assert (H2 : In (Search true 2 [[1; 0]; [0; 1]]
                     [1.5403726537088136; 2.8006775741254906] [1; 0]
                     (Some 1.4783635421809698))
                  (snd (minimizePowell lineMinExample valley [0; 0]
                          (withBoundsMaxIter valleyBounds 4))))
    by (vm_compute; do 7 right; left; reflexivity).
  assert (H3 : In (Search true 3 [[0; 1]; [0.96586963118392577; 0.25902867709315008]]
                     [3.5311287644696385; 3.3345621742173286] [0; 1]
                     (Some 0.28181590540337897))
                  (snd (minimizePowell lineMinExample valley [0; 0]
                          (withBoundsMaxIter valleyBounds 4))))
    by (vm_compute; do 13 right; left; reflexivity).
  split; [exact H2|]. split; [exact H3|].
  destruct (direction_set_invariant lineMinExample valley [0; 0]
              (withBoundsMaxIter valleyBounds 4) (le_S 1 1 (le_n 1))
              _ _ _ _ _ _ H2) as [Hl2 Hb2].
  destruct (direction_set_invariant lineMinExample valley [0; 0]
              (withBoundsMaxIter valleyBounds 4) (le_S 1 1 (le_n 1))
              _ _ _ _ _ _ H3) as [Hl3 _].
  split; [|exact Hl3].
  split; [exact Hl2|].
  exact (Hb2 eq_refl (Z.divide_refl 2)).
Defined.

(** The same run: its only search returns the step [0], and the call
    returns [[1]]. *)
Lemma zero_step_returns_current_point_witness :
  @nil event = [] /\
  fst (minimizePowell lineMinExample (fun v => - get v 0) [1]
         (withBounds [Some (0, 1)])) = Returned (Some [1]).
Proof.
  apply (zero_step_returns_current_point lineMinExample (fun v => - get v 0) [1]
           (withBounds [Some (0, 1)]) [Point [1]] [] 1%Z [[1]] [1] [1] 0);
    vm_compute; reflexivity.
Defined.

(** The run on [valley] with [maxIter = 4] makes three passes, the most the
    budget allows; with [maxIter = 1] from [[100]] within [[-10, 10]] no
    pass is made. *)
Lemma outer_loop_budget_witness :
  (snd (minimizePowell_passes lineMinExample valley [0; 0]
          (withBoundsMaxIter valleyBounds 4)) = 3%nat /\
   Z.le (Z.of_nat (snd (minimizePowell_passes lineMinExample valley [0; 0]
                          (withBoundsMaxIter valleyBounds 4)))) 3) /\
  minimizePowell_passes lineMinExample (fun v => get v 0 * get v 0) [100]
                        (withBoundsMaxIter [Some (-10, 10)] 1)
  = (Returned (Some [10]), [Point [10]], 0%nat).
Proof.
  split.
  - split; [vm_compute; reflexivity|].
    destruct (outer_loop_budget lineMinExample valley [0; 0]
                (withBoundsMaxIter valleyBounds 4)) as (_ & H & _).
    exact H.
  - destruct (outer_loop_budget lineMinExample (fun v => get v 0 * get v 0) [100]
                (withBoundsMaxIter [Some (-10, 10)] 1)) as (_ & _ & _ & H & _).
    apply H. vm_compute. discriminate.
Defined.

(** The run on [valley] for the budget [maxIter = 1.5]: the test
    [++iter < maxIter] holds for [iter = 1] and fails for [iter = 2], so one
    pass is made, with three line searches. *)
Lemma fractional_budget_run :
  snd (minimizePowell_with lineMinExample valley [0; 0] (withBounds valleyBounds)
         (number_budget 1.5) 2) = 1%nat /\
  searches (snd (fst (minimizePowell_with lineMinExample valley [0; 0]
                        (withBounds valleyBounds) (number_budget 1.5) 2))) = 3%nat /\
  number_budget 1.5 1 = true /\ number_budget 1.5 2 = false.
Proof. vm_compute. repeat split; reflexivity. Qed.

(** C10, as stated, fails: [maxIter] is a number, and with [maxIter = 1.5]
    the outer loop makes one pass, above [maxIter - 1 = 0.5]. *)
Lemma at_most_maxIter_minus_one_fails :
  ~ at_most_maxIter_minus_one 1.5
      (snd (minimizePowell_with lineMinExample valley [0; 0]
              (withBounds valleyBounds) (number_budget 1.5) 2)).
Proof.
  unfold at_most_maxIter_minus_one. intros H. vm_compute in H. discriminate H.
Qed.

(** * Further properties of the golden-section minimizer *)

Lemma ltb_nan_l (x : float) : (nan <? x) = false.
Proof. rewrite ltb_spec. reflexivity. Qed.

Section GoldenSectionMore.

Variable f : float -> float.
Variables lo hi tol : float.
Variable maxI : Z.

Local Abbreviation run := (gs_run f lo hi tol maxI).

Lemma async_status :
  snd (Async.goldenSectionMinimize f lo hi tol maxI) = finalStatus maxI run.
Proof.
  unfold Async.goldenSectionMinimize, finalStatus.
  destruct (gs_run f lo hi tol maxI) as [i s]. cbn [fst snd].
  destruct (i =? maxI)%Z; [reflexivity|].
  destruct (isNaN (gs_f2 s) || isNaN (gs_f1 s)); reflexivity.
Qed.

Lemma sync_status :
  snd (Sync.goldenSectionMinimize f lo hi tol maxI) = finalStatus maxI run.
Proof.
  unfold Sync.goldenSectionMinimize, finalStatus.
  destruct (gs_run f lo hi tol maxI) as [i s]. cbn [fst snd].
  destruct (i =? maxI)%Z, (isNaN (gs_f2 s) || isNaN (gs_f1 s)); reflexivity.
Qed.

(** X1: for an integer budget [maxIterations], in both variants
    [status.iterations] is at least [1] and at most [maxIterations] (at
    most [1] for a budget below one): the loop makes at most
    [maxIterations - 1] passes. *)
Theorem status_iterations_bounds :
  (1 <= iterations (snd (Async.goldenSectionMinimize f lo hi tol maxI))
     <= Z.max 1 maxI)%Z /\
  (1 <= iterations (snd (Sync.goldenSectionMinimize f lo hi tol maxI))
     <= Z.max 1 maxI)%Z.
Proof.
  rewrite async_status, sync_status. cbn [finalStatus iterations].
  destruct (gs_run_exit f tol maxI lo hi) as (_ & H1 & H2). lia.
Qed.

(** X2: for a budget of at least one, when either variant reports
    [status.converged = true] the loop has ended on its width test
    ([Math.abs(xU - xL) > tol] is false for the final interval) with the
    counter below the budget, and neither final probe value is NaN. *)
Theorem converged_means_tolerance_met (gs : golden_section) :
  (1 <= maxI)%Z ->
  gs = Async.goldenSectionMinimize \/ gs = Sync.goldenSectionMinimize ->
  converged (snd (gs f lo hi tol maxI)) = true ->
  above_tolerance tol (snd run) = false /\
  (fst run < maxI)%Z /\
  isNaN (gs_f1 (snd run)) = false /\ isNaN (gs_f2 (snd run)) = false.
Proof.
  intros Hm Hgs Hc.
  assert (Hs : snd (gs f lo hi tol maxI) = finalStatus maxI run)
    by (destruct Hgs as [-> | ->]; [apply async_status | apply sync_status]).
  rewrite Hs in Hc. cbn [finalStatus converged] in Hc.
  apply andb_prop in Hc. destruct Hc as [Hi Hn].
  apply negb_true_iff in Hi, Hn. apply orb_false_elim in Hn.
  destruct Hn as [H2 H1]. apply Z.eqb_neq in Hi.
  destruct (gs_run_exit f tol maxI lo hi) as (G & L1 & L2).
  assert (Hlt : (fst run < maxI)%Z) by lia.
  unfold gs_guard in G. rewrite (proj2 (Z.ltb_lt _ _) Hlt) in G.
  repeat split; assumption.
Qed.

(** X3: the two variants leave the same status on every input, and the
    synchronous variant returns what the asynchronous one returns when the
    search converged and NaN otherwise. *)
Theorem variants_agree :
  snd (Sync.goldenSectionMinimize f lo hi tol maxI)
    = snd (Async.goldenSectionMinimize f lo hi tol maxI) /\
  fst (Sync.goldenSectionMinimize f lo hi tol maxI)
    = (if converged (snd (Async.goldenSectionMinimize f lo hi tol maxI))
       then fst (Async.goldenSectionMinimize f lo hi tol maxI)
       else Some nan).
Proof.
  split; [now rewrite sync_status, async_status|].
  unfold Sync.goldenSectionMinimize, Async.goldenSectionMinimize.
  destruct (gs_run f lo hi tol maxI) as [i s]. cbn [fst snd].
  destruct (i =? maxI)%Z; [now rewrite orb_true_r|]. rewrite orb_false_r.
  destruct (isNaN (gs_f2 s) || isNaN (gs_f1 s)); reflexivity.
Qed.

(** X4: with a budget of at most one, or with a NaN tolerance, the loop
    makes no pass: both variants leave [status.iterations = 1],
    [status.argmin] the midpoint [0.5 * (hi + lo)] of the interval given
    and [status.minimum] the mean of the two first probe values. *)
Theorem no_pass_status :
  (maxI <= 1)%Z \/ is_nan tol = true ->
  let s0 := gs_init f lo hi in
  snd (Async.goldenSectionMinimize f lo hi tol maxI)
    = finalStatus maxI (1%Z, s0) /\
  snd (Sync.goldenSectionMinimize f lo hi tol maxI)
    = finalStatus maxI (1%Z, s0) /\
  gs_xF s0 = 0.5 * (hi + lo).
Proof.
  intros H s0.
  assert (Hrun : run = (1%Z, s0)).
  { unfold gs_run. fold s0.
    assert (G : gs_guard tol maxI (0 + 1) s0 = false).
    { unfold gs_guard. destruct H as [H | H].
      - replace (0 + 1 <? maxI)%Z with false by (symmetry; apply Z.ltb_ge; lia).
        reflexivity.
      - apply is_nan_eq in H. rewrite H, ltb_nan_l. apply andb_false_r. }
    destruct (Z.to_nat maxI); cbn [gs_loop]; rewrite G; reflexivity. }
  rewrite async_status, sync_status, Hrun. repeat split; reflexivity.
Qed.

End GoldenSectionMore.

(** [x (x - 2)] on [[-10, 10]] with the tolerance [1e-8]. *)
Lemma converged_means_tolerance_met_witness :
  above_tolerance 1e-8 (snd (gs_run (fun x => x * (x - 2)) (-10) 10 1e-8 100)) = false.
Proof.
  destruct (converged_means_tolerance_met (fun x => x * (x - 2)) (-10) 10 1e-8 100
              Async.goldenSectionMinimize) as [H _];
    [lia | left; reflexivity | reflexivity | exact H].
Defined.

(** A NaN tolerance on [[0, 2]]: one iteration is counted and the search is
    reported as converged at the midpoint of the whole interval. *)
Lemma no_pass_status_witness :
  snd (Async.goldenSectionMinimize (fun x => x * (x - 2)) 0 2 nan 100)
  = mkStatus 1 1 (gs_fF (gs_init (fun x => x * (x - 2)) 0 2)) true.
Proof.
  destruct (no_pass_status (fun x => x * (x - 2)) 0 2 nan 100) as [H _];
    [right; reflexivity|].
  rewrite H. reflexivity.
Defined.

(** * Further properties of the line minimizer *)

Section LineMinimizerMore.

Variable br : bracketer.
Variable f : float -> float.


End LineMinimizerMore.

(** * Further properties of [constrain] *)

Lemma eqb_compare (a b : float) :
  (a =? b) = true <-> SFcompare (Prim2SF a) (Prim2SF b) = Some Eq.
Proof.
  rewrite FloatAxioms.eqb_spec. unfold SFeqb.
  destruct (SFcompare (Prim2SF a) (Prim2SF b)) as [[]|]; split; congruence.
Qed.

(** Numbers that compare equal compare alike with any third number. *)
Lemma SFcompare_eq_left (a b c : spec_float) :
  SFcompare a b = Some Eq -> SFcompare a c = SFcompare b c.
Proof.
  destruct a as [sa|sa| |sa ma ea], b as [sb|sb| |sb mb eb]; cbn;
    try discriminate; try reflexivity;
    try (destruct sa; discriminate); try (destruct sb; discriminate).
  - destruct sa, sb; try discriminate; reflexivity.
  - destruct sa, sb; try discriminate;
      destruct (ea ?= eb)%Z eqn:Ee; try discriminate;
      apply Z.compare_eq in Ee; subst eb;
      rewrite Pos.compare_cont_spec; cbn [Pos.switch_Eq];
      destruct (ma ?= mb)%positive eqn:Em; try discriminate;
      apply Pos.compare_eq in Em; subst mb; reflexivity.
Qed.

Lemma eqb_refl_number (a : float) : is_nan a = false -> (a =? a) = true.
Proof. unfold is_nan. now destruct (a =? a). Qed.

Lemma eqb_trans (a b c : float) :
  (a =? b) = true -> (b =? c) = true -> (a =? c) = true.
Proof.
  rewrite !eqb_compare. intros H1 H2.
  now rewrite (SFcompare_eq_left _ _ (Prim2SF c) H1).
Qed.

Lemma eqb_leb_l (a b c : float) : (a =? b) = true -> (a <=? c) = (b <=? c).
Proof.
  rewrite eqb_compare, !leb_spec. unfold SFleb. intros H.
  now rewrite (SFcompare_eq_left _ _ (Prim2SF c) H).
Qed.

Lemma not_ltb_eqb (a b : float) :
  is_nan a = false -> is_nan b = false ->
  (a <? b) = false -> (b <? a) = false -> (a =? b) = true.
Proof.
  intros Ha Hb. rewrite eqb_compare, !ltb_spec. unfold SFltb.
  rewrite (SFcompare_antisym (Prim2SF a) (Prim2SF b)).
  destruct (SFcompare (Prim2SF a) (Prim2SF b)) as [[]|] eqn:E; cbn;
    try congruence.
  intros _ _. apply SFcompare_none in E.
  apply is_nan_false_compare in Ha. apply is_nan_false_compare in Hb.
  destruct E as [E|E]; rewrite E in *; discriminate.
Qed.

(** [Math.max] with a lower bound that the number respects gives the
    number back. *)
Lemma Math_max_above (lo v : float) :
  is_nan lo = false -> is_nan v = false -> (lo <=? v) = true ->
  (Math_max lo v =? v) = true /\ is_nan (Math_max lo v) = false.
Proof.
  intros Hlo Hv Hle. unfold Math_max. rewrite Hlo, Hv. cbn [orb].
  destruct (lo <? v) eqn:H1; [split; [now apply eqb_refl_number | exact Hv]|].
  rewrite (leb_not_ltb _ _ Hle).
  destruct (is_neg_zero lo); [split; [now apply eqb_refl_number | exact Hv]|].
  split; [|exact Hlo]. apply not_ltb_eqb; auto. now apply leb_not_ltb.
Qed.

Lemma Math_min_below (hi v : float) :
  is_nan hi = false -> is_nan v = false -> (v <=? hi) = true ->
  (Math_min hi v =? v) = true.
Proof.
  intros Hhi Hv Hle. unfold Math_min. rewrite Hhi, Hv. cbn [orb].
  rewrite (leb_not_ltb _ _ Hle).
  destruct (v <? hi) eqn:H2; [now apply eqb_refl_number|].
  destruct (is_neg_zero hi); [|now apply eqb_refl_number].
  apply not_ltb_eqb; auto. now apply leb_not_ltb.
Qed.

(** A number within the finite bounds is clamped to itself. *)
Lemma clamp_within_fixed (lo hi v : float) :
  is_nan v = false ->
  (isFinite lo = true -> (lo <=? v) = true) ->
  (isFinite hi = true -> (v <=? hi) = true) ->
  (clamp (Some (lo, hi)) v =? v) = true.
Proof.
  intros Hv Hlo Hhi. unfold clamp.
  assert (Hm : ((if isFinite lo then Math_max lo v else v) =? v) = true /\
               is_nan (if isFinite lo then Math_max lo v else v) = false).
  { destruct (isFinite lo) eqn:Flo.
    - apply Math_max_above; auto. now apply isFinite_not_nan.
    - split; [now apply eqb_refl_number | exact Hv]. }
  destruct Hm as [Hm Hn]. set (m := if isFinite lo then Math_max lo v else v) in *.
  destruct (isFinite hi) eqn:Fhi; [|exact Hm].
  apply (eqb_trans _ m); [|exact Hm].
  apply Math_min_below; auto; [now apply isFinite_not_nan|].
  rewrite (eqb_leb_l _ _ hi Hm). now apply Hhi.
Qed.

Section ConstrainMore.

Variable options : option PowellOptions.

Lemma constrain_at_length (b : ibound) (i : nat) (x : vec) :
  (length x <= length (constrain_at b i x) <= Nat.max (length x) (S i))%nat.
Proof.
  destruct b as [[lo hi]|]; cbn [constrain_at]; [|lia].
  destruct (isFinite lo), (isFinite hi); rewrite ?length_set; lia.
Qed.

Lemma constrain_from_length (bs : list ibound) : forall i x,
  (length x <= length (constrain_from bs i x)
     <= Nat.max (length x) (i + length bs))%nat.
Proof.
  induction bs as [|b bs IH]; intros i x; cbn [constrain_from length]; [lia|].
  specialize (IH (S i) (constrain_at b i x)).
  pose proof (constrain_at_length b i x). lia.
Qed.

Lemma constrain_from_get_beyond (bs : list ibound) : forall i x k,
  (i + length bs <= k)%nat -> get (constrain_from bs i x) k = get x k.
Proof.
  induction bs as [|b bs IH]; intros i x k Hk; cbn [constrain_from length] in *;
    [reflexivity|].
  rewrite IH by lia. apply constrain_at_get_other. lia.
Qed.

(** X7: [constrain] never drops a coordinate, and it adds coordinates only
    when [bounds] has more entries than the point. *)
Theorem constrain_length (x : vec) :
  (length x <= length (constrain options x)
     <= Nat.max (length x) (length (bounds_ options)))%nat.
Proof. exact (constrain_from_length (bounds_ options) 0 x). Qed.

(** X8: [constrain] leaves the coordinate of a dimension untouched when
    the dimension has no entry in [bounds], a [null] entry, or an entry
    with no finite bound. *)
Theorem constrain_unbounded_dimension (x : vec) (i : nat) :
  (forall lo hi, nth_error (bounds_ options) i = Some (Some (lo, hi)) ->
                 isFinite lo = false /\ isFinite hi = false) ->
  get (constrain options x) i = get x i.
Proof.
  intros H. destruct (nth_error (bounds_ options) i) as [b|] eqn:E.
  - rewrite (constrain_get options x i b E).
    destruct b as [[lo hi]|]; [|reflexivity].
    destruct (H lo hi eq_refl) as [Hlo Hhi]. unfold clamp. now rewrite Hlo, Hhi.
  - apply nth_error_None in E. apply constrain_from_get_beyond. lia.
Qed.

(** X9: [constrain] leaves a coordinate that is a number within the finite
    bounds of its dimension equal to itself (as numbers: the sign of a zero
    may change). *)
Theorem constrain_within_bounds_fixed (x : vec) (i : nat) (lo hi : float) :
  nth_error (bounds_ options) i = Some (Some (lo, hi)) ->
  is_nan (get x i) = false ->
  (isFinite lo = true -> (lo <=? get x i) = true) ->
  (isFinite hi = true -> (get x i <=? hi) = true) ->
  (get (constrain options x) i =? get x i) = true.
Proof.
  intros Hb Hv Hlo Hhi. rewrite (constrain_get options x i _ Hb).
  now apply clamp_within_fixed.
Qed.

End ConstrainMore.

(** The second coordinate of [[2; 7]] under the bounds [[[0, 1], null]]. *)
Lemma constrain_unbounded_dimension_witness :
  get (constrain (withBounds [Some (0, 1); None]) [2; 7]) 1 = 7.
Proof.
  apply (constrain_unbounded_dimension (withBounds [Some (0, 1); None]) [2; 7] 1).
  intros lo hi H. discriminate H.
Defined.

(** The coordinate [0.25] under the bounds [[0, 1]]. *)
Lemma constrain_within_bounds_fixed_witness :
  (get (constrain (withBounds [Some (0, 1)]) [0.25]) 0 =? get [0.25] 0) = true.
Proof.
  apply (constrain_within_bounds_fixed (withBounds [Some (0, 1)]) [0.25] 0 0 1);
    reflexivity.
Defined.

(** * Further properties of [bound] *)

Lemma Math_max_neg_infinity (x : float) : Math_max neg_infinity x = x.
Proof.
  unfold Math_max. change (is_nan neg_infinity) with false. cbn [orb].
  destruct (is_nan x) eqn:Hx; [symmetry; now apply is_nan_eq|].
  destruct (neg_infinity <? x) eqn:H1; [reflexivity|].
  assert (H2 : (x <? neg_infinity) = false).
  { rewrite ltb_spec. change (Prim2SF neg_infinity) with (S754_infinity true).
    unfold SFltb. destruct (Prim2SF x) as [s|[]| |[] m e]; reflexivity. }
  rewrite H2. change (is_neg_zero neg_infinity) with false. cbv iota.
  apply Prim2SF_inj. change (Prim2SF neg_infinity) with (S754_infinity true).
  apply is_nan_false_compare in Hx.
  rewrite ltb_spec in H1. change (Prim2SF neg_infinity) with (S754_infinity true) in H1.
  unfold SFltb in H1.
  destruct (Prim2SF x) as [s|[]| |[] m e]; cbn in *; congruence.
Qed.

Lemma Math_min_infinity (x : float) : Math_min infinity x = x.
Proof.
  unfold Math_min. change (is_nan infinity) with false. cbn [orb].
  destruct (is_nan x) eqn:Hx; [symmetry; now apply is_nan_eq|].
  assert (H1 : (infinity <? x) = false).
  { rewrite ltb_spec. change (Prim2SF infinity) with (S754_infinity false).
    unfold SFltb. destruct (Prim2SF x) as [s|[]| |[] m e]; reflexivity. }
  rewrite H1. destruct (x <? infinity) eqn:H2; [reflexivity|].
  change (is_neg_zero infinity) with false. cbv iota. reflexivity.
Qed.

Lemma fold_left_fixed {A B : Type} (g : A -> B -> A) (l : list B) (a : A) :
  (forall b, In b l -> g a b = a) -> fold_left g l a = a.
Proof.
  induction l as [|b l IH]; intros H; cbn; [reflexivity|].
  rewrite (H b (or_introl eq_refl)). apply IH. intros b' Hb'. apply H. now right.
Qed.

Section BoundMore.

Variable x0 : vec.
Variable options : option PowellOptions.
Variable bs : list ibound.
Hypothesis Hbs : opt options bounds = Some bs.

(** X10: [bound] returns [[-Infinity, Infinity]] when no dimension has at
    once a finite bound and a non-zero component of the direction; the
    zero direction is never limited. *)
Theorem bound_unlimited (p ui : vec) :
  (forall j b0 b1, (j < n x0)%nat -> nth j bs None = Some (b0, b1) ->
     (get ui j =? 0) = true \/ (isFinite b0 = false /\ isFinite b1 = false)) ->
  bound x0 options p ui = (neg_infinity, infinity).
Proof.
  intros H. unfold bound, bounds_. rewrite Hbs. cbn [orElse].
  apply fold_left_fixed. intros j Hj. apply in_seq in Hj. unfold bound_at.
  destruct (nth j bs None) as [[b0 b1]|] eqn:E; [|reflexivity].
  destruct (H j b0 b1 ltac:(lia) E) as [Hz | [H0 H1]].
  - now rewrite Hz.
  - rewrite H0, H1. now destruct (get ui j =? 0).
Qed.

(** X11: along a direction whose only non-zero component is a positive
    one, in dimension [i], the interval of [bound] is given by the bounds
    of that dimension alone: [(bounds[i][0] - p[i]) / ui[i]] below and
    [(bounds[i][1] - p[i]) / ui[i]] above, each infinite when the bound is
    not finite. *)
Theorem bound_along_axis (p ui : vec) (i : nat) (b0 b1 : float) :
  (i < n x0)%nat ->
  nth i bs None = Some (b0, b1) ->
  (0 <? get ui i) = true ->
  (forall j, (j < n x0)%nat -> j <> i -> (get ui j =? 0) = true) ->
  bound x0 options p ui
  = (if isFinite b0 then (b0 - get p i) / get ui i else neg_infinity,
     if isFinite b1 then (b1 - get p i) / get ui i else infinity).
Proof.
  intros Hi Hb Hpos Hz. unfold bound, bounds_. rewrite Hbs. cbn [orElse].
  replace (n x0) with (i + S (n x0 - S i))%nat by lia.
  rewrite seq_app, fold_left_app. cbn [seq fold_left Nat.add].
  assert (Hid : forall l lu,
             (forall j, In j l -> (j < n x0)%nat /\ j <> i) ->
             fold_left (fun lu j => bound_at (nth j bs None) (get p j) (get ui j) lu)
                       l lu = lu).
  { intros l lu Hl. apply fold_left_fixed. intros j Hj.
    destruct (Hl j Hj) as [Hj1 Hj2]. unfold bound_at.
    destruct (nth j bs None) as [[c0 c1]|]; [|reflexivity].
    now rewrite (Hz j Hj1 Hj2). }
  rewrite (Hid (seq 0 i)) by (intros j Hj; apply in_seq in Hj; lia).
  rewrite Hid by (intros j Hj; apply in_seq in Hj; lia).
  unfold bound_at. rewrite Hb, Hpos. cbn [fst snd].
  assert (Hnz : (get ui i =? 0) = false).
  { destruct (get ui i =? 0) eqn:E; [|reflexivity].
    apply eqb_compare in E. rewrite ltb_spec in Hpos. unfold SFltb in Hpos.
    rewrite (SFcompare_antisym (Prim2SF (get ui i)) (Prim2SF 0)), E in Hpos.
    discriminate Hpos. }
  rewrite Hnz, Math_max_neg_infinity, Math_min_infinity. reflexivity.
Qed.

End BoundMore.

(** The zero direction within the bounds [[0, 1]]. *)
Lemma bound_unlimited_witness :
  bound [0.5] (withBounds [Some (0, 1)]) [0.5] [0] = (neg_infinity, infinity).
Proof.
  apply (bound_unlimited [0.5] (withBounds [Some (0, 1)]) [Some (0, 1)] eq_refl).
  intros [|j] b0 b1 Hj H; [left; reflexivity | cbn in Hj; lia].
Defined.

(** The first axis from [[0.5; 3]] within [[[0, 1], null]]. *)
Lemma bound_along_axis_witness :
  bound [0.5; 3] (withBounds [Some (0, 1); None]) [0.5; 3] [1; 0] = (-0.5, 0.5).
Proof.
  rewrite (bound_along_axis [0.5; 3] (withBounds [Some (0, 1); None])
             [Some (0, 1); None] eq_refl [0.5; 3] [1; 0] 0 0 1).
  - reflexivity.
  - cbn. lia.
  - reflexivity.
  - reflexivity.
  - intros [|[|j]] Hj Hne; [congruence | reflexivity | cbn in Hj; lia].
Defined.


(** * Further properties of [minimizePowell] *)

Lemma last_cons_default {A : Type} (a d : A) (l : list A) :
  last (a :: l) d = last l a.
Proof.
  revert a d. induction l as [|b l IH]; intros a d; [reflexivity|].
  change (last (a :: b :: l) d) with (last (b :: l) d). now rewrite !IH.
Qed.

Lemma last_app_default {A : Type} (l1 l2 : list A) (d : A) :
  last (l1 ++ l2) d = last l2 (last l1 d).
Proof.
  revert d. induction l1 as [|a l1 IH]; intros d; [reflexivity|].
  cbn [app]. now rewrite !last_cons_default, IH.
Qed.

Lemma last_Forall {A : Type} (P : A -> Prop) (l : list A) (d : A) :
  P d -> Forall P l -> P (last l d).
Proof.
  intros Hd H. revert d Hd. induction H as [|a l Ha _ IH]; intros d Hd; [exact Hd|].
  rewrite last_cons_default. now apply IH.
Qed.

Lemma searches_app (tr1 tr2 : list event) :
  searches (tr1 ++ tr2) = (searches tr1 + searches tr2)%nat.
Proof.
  induction tr1 as [|[q| |] tr1 IH]; cbn; rewrite ?IH; reflexivity.
Qed.

Lemma add_step_length (x0 : vec) (t : float) (ui p : vec) :
  (n x0 <= length p)%nat -> length (add_step x0 t ui p) = length p.
Proof.
  intros Hn. unfold add_step.
  assert (H : forall l q, (forall j, In j l -> (j < length q)%nat) ->
                length (fold_left (fun p j => set p j (get p j + t * get ui j)) l q)
                = length q).
  { induction l as [|j l IH]; intros q Hq; cbn [fold_left]; [reflexivity|].
    assert (Hl : length (set q j (get q j + t * get ui j)) = length q).
    { rewrite length_set. specialize (Hq j (or_introl eq_refl)). lia. }
    rewrite IH; [exact Hl|]. intros k Hk. rewrite Hl. apply Hq. now right. }
  apply H. intros j Hj. apply in_seq in Hj. lia.
Qed.

Section PowellMore.

Variable lineMin : (float -> float) -> option MinimizeOptions -> option float.
Variable f : vec -> float.
Variable x0 : vec.
Variable options : option PowellOptions.

Local Abbreviation cycle_ := (cycle lineMin f x0 options).
Local Abbreviation body_ := (body lineMin f x0 options).
Local Abbreviation loop_ := (loop lineMin f x0 options).
Local Abbreviation lineSearch_ := (lineSearch lineMin f x0 options).
Local Abbreviation constrain_ := (constrain options).
Local Abbreviation run := (minimizePowell lineMin f x0 options).

(** ** The point carried by the loops is the last point recorded *)

Lemma cycle_last (iter : Z) (u : list vec) : forall idx p q,
  carried (fst (cycle_ iter u idx p)) (fun a => a) = Some q ->
  q = last (points (snd (cycle_ iter u idx p))) p.
Proof.
  induction idx as [|i idx IH]; intros p q; cbn [cycle].
  { cbn. congruence. }
  destruct (nth_error u i) as [ui|]; [|discriminate].
  destruct (lineSearch_ p ui) as [t|]; [|discriminate].
  destruct (is_zero_step t); [cbn; congruence|].
  specialize (IH (constrain_ (add_step x0 t ui p)) q).
  destruct (cycle_ iter u idx (constrain_ (add_step x0 t ui p))) as [r tr].
  cbn [fst snd points] in *. intros H. rewrite last_cons_default. now apply IH.
Qed.

Lemma body_last (iter : Z) (p : vec) (u : list vec) (perr : float) (q : vec) :
  carried (fst (body_ iter p u perr)) (fun a => fst (fst a)) = Some q ->
  q = last (points (snd (body_ iter p u perr))) p.
Proof.
  unfold body.
  pose proof (cycle_last iter (reinit x0 iter u) (seq 0 (n x0)) p) as Hc.
  destruct (cycle_ iter (reinit x0 iter u) (seq 0 (n x0)) p) as [[c|o] tr];
    cbn [fst snd] in *; [|exact (Hc q)].
  specialize (Hc c eq_refl).
  destruct (0 <? _); [|cbn; congruence].
  set (un := map _ (displacement x0 c (map (get p) (seq 0 (n x0))))).
  destruct (lineSearch_ c un) as [t|]; [|discriminate].
  destruct (is_zero_step t || negb (isFinite t)).
  { cbn [fst snd carried]. rewrite points_app, last_app_default. cbn. congruence. }
  assert (Hl : forall l, (forall e, In e l -> exists a b c' d, e = Log a b c' d) ->
                 points l = []).
  { induction l as [|e l IH]; intros Hl; [reflexivity|].
    destruct (Hl e (or_introl eq_refl)) as (a & b & c' & d & ->). cbn.
    apply IH. intros e' He'. apply Hl. now right. }
  assert (Hp : forall q',
             points (tr ++ Search false iter (tl (reinit x0 iter u) ++ [un]) c un (Some t)
                        :: Point q'
                        :: (if verbose_ options
                            then [Log iter (sqrt (step_err x0 t un) / perr) q' (f q')]
                            else []))
             = points tr ++ [q']).
  { intros q'. rewrite points_app. cbn [points]. f_equal. f_equal.
    destruct (verbose_ options); reflexivity. }
  destruct (_ <? tol options); cbn [fst snd carried]; rewrite Hp, last_app_default;
    cbn; congruence.
Qed.

Lemma loop_last : forall fuel iter p u perr q,
  fst (loop_ fuel iter p u perr) = Returned (Some q) ->
  q = last (points (snd (loop_ fuel iter p u perr))) p.
Proof.
  induction fuel as [|k IH]; intros iter p u perr q; cbn [loop];
    destruct (iter + 1 <? maxIter_ options)%Z;
    try (cbn; congruence).
  pose proof (body_last (iter + 1)%Z p u perr) as Hb.
  destruct (body_ (iter + 1)%Z p u perr) as [[[[p' u'] perr']|o] tr];
    cbn [fst snd carried] in *.
  - specialize (IH (iter + 1)%Z p' u' perr' q).
    destruct (loop_ k (iter + 1)%Z p' u' perr') as [o tr']. cbn [fst snd] in *.
    intros H. rewrite points_app, last_app_default, <- (Hb p' eq_refl). now apply IH.
  - intros ->. now apply Hb.
Qed.

(** The points of a run are all results of [constrain]. *)
Lemma points_clamped :
  Forall (fun q => exists x, q = constrain_ x) (points (snd run)).
Proof.
  apply Forall_points. rewrite run_unfold. cbn [snd].
  constructor; [eexists; reflexivity|].
  apply (loop_events lineMin f x0 options (fun _ _ => True)); [|lia|exact I].
  intros iter p u perr _ _. split; [|auto].
  eapply Forall_impl; [|apply body_events].
  intros [q|[] it u' q ui t|]; cbn; auto.
Qed.

(** X12: the point [minimizePowell] returns is the last point it pushed on
    [status.points]. *)
Theorem returned_point_is_last_recorded (q : vec) :
  fst run = Returned (Some q) ->
  last (points (snd run)) [] = q.
Proof.
  rewrite run_unfold. cbn [fst snd points]. intros H.
  rewrite last_cons_default. symmetry. now apply loop_last.
Qed.

(** X13: when the bounds are in order, every coordinate of the point
    [minimizePowell] returns is NaN or within the finite bounds of its
    dimension. *)
Theorem returned_point_within_bounds (q : vec) :
  ordered_bounds (bounds_ options) ->
  fst run = Returned (Some q) ->
  within_bounds_or_nan (bounds_ options) q.
Proof.
  intros Hord H. pose proof points_clamped as Hc.
  rewrite run_unfold in H, Hc. cbn [fst snd points] in *.
  rewrite (loop_last _ _ _ _ _ q H).
  apply Forall_cons_iff in Hc. destruct Hc as [Hs Hc].
  assert (Hl : exists x, last (points (snd (loop_ (Z.to_nat (maxIter_ options)) 0
                                               (constrain_ x0) (basis x0) 0)))
                              (constrain_ x0) = constrain_ x)
    by (apply (last_Forall (fun q => exists x, q = constrain_ x)); assumption).
  destruct Hl as [x ->]. now apply constrain_within.
Qed.

(** ** [undefined] comes from the line minimizer only *)




(** X14: when the search along the new direction, the extra one of an
    iteration, returns a step that is [0] or not finite (NaN included),
    [minimizePowell] returns the current point as it stands and does
    nothing more. *)
Theorem extra_search_stops :
  forall pre post iter u p ui t,
    snd run = pre ++ Search false iter u p ui (Some t) :: post ->
    (is_zero_step t || negb (isFinite t)) = true ->
    post = [] /\ fst run = Returned (Some p).
Proof.
  intros pre post iter u p ui t Htr Hz.
  apply (minimizePowell_stops lineMin f x0 options pre _ post (Some p) Htr).
  cbn [stops]. now rewrite Hz.
Qed.

(** ** Dimensions *)

Local Abbreviation sized :=
  (fun q : vec =>
     (n x0 <= length q <= Nat.max (n x0) (length (bounds_ options)))%nat).

Lemma step_sized (t : float) (ui p : vec) :
  sized p -> sized (constrain_ (add_step x0 t ui p)).
Proof.
  intros Hp. cbv beta in *.
  pose proof (constrain_length options (add_step x0 t ui p)) as H.
  rewrite add_step_length in H by lia. lia.
Qed.

Lemma cycle_sized (iter : Z) (u : list vec) : forall idx p,
  sized p ->
  Forall sized (points (snd (cycle_ iter u idx p))) /\
  (forall q, fst (cycle_ iter u idx p) = Continue q -> sized q).
Proof.
  induction idx as [|i idx IH]; intros p Hp; cbn [cycle].
  { split; [constructor|]. intros q E. injection E as <-. exact Hp. }
  destruct (nth_error u i) as [ui|]; [|split; [constructor | discriminate]].
  destruct (lineSearch_ p ui) as [t|]; [|split; [constructor | discriminate]].
  destruct (is_zero_step t); [split; [constructor | discriminate]|].
  specialize (IH _ (step_sized t ui p Hp)).
  destruct (cycle_ iter u idx (constrain_ (add_step x0 t ui p))) as [r tr].
  cbn [fst snd points] in *. destruct IH as [IH1 IH2].
  split; [constructor; [now apply step_sized | exact IH1] | exact IH2].
Qed.

Lemma body_sized (iter : Z) (p : vec) (u : list vec) (perr : float) :
  sized p ->
  Forall sized (points (snd (body_ iter p u perr))) /\
  (forall p' u' perr', fst (body_ iter p u perr) = Continue (p', u', perr') ->
     sized p').
Proof.
  intros Hp. unfold body.
  destruct (cycle_sized iter (reinit x0 iter u) (seq 0 (n x0)) p Hp) as [Hc Hq].
  destruct (cycle_ iter (reinit x0 iter u) (seq 0 (n x0)) p) as [[c|o] tr];
    cbn [fst snd] in *; [|split; [exact Hc | discriminate]].
  specialize (Hq c eq_refl).
  destruct (0 <? _); [|split; [exact Hc | discriminate]].
  set (un := map _ (displacement x0 c (map (get p) (seq 0 (n x0))))).
  destruct (lineSearch_ c un) as [t|];
    [|cbn [fst snd]; rewrite points_app; split;
      [apply Forall_app; split; [exact Hc | constructor] | discriminate]].
  destruct (is_zero_step t || negb (isFinite t));
    [cbn [fst snd]; rewrite points_app; split;
     [apply Forall_app; split; [exact Hc | constructor] | discriminate]|].
  pose proof (step_sized t un c Hq) as Hs.
  assert (Hl : Forall sized
                 (points (tr ++ Search false iter (tl (reinit x0 iter u) ++ [un]) c un
                              (Some t)
                             :: Point (constrain_ (add_step x0 t un c))
                             :: (if verbose_ options
                                 then [Log iter (sqrt (step_err x0 t un) / perr)
                                           (constrain_ (add_step x0 t un c))
                                           (f (constrain_ (add_step x0 t un c)))]
                                 else [])))).
  { rewrite points_app. apply Forall_app. split; [exact Hc|]. cbn [points].
    constructor; [exact Hs|]. destruct (verbose_ options); constructor. }
  destruct (_ <? tol options); cbn [fst snd]; split; try exact Hl;
    [discriminate|]. intros p' u' perr' E. injection E as <- _ _. exact Hs.
Qed.

(** X15: every point pushed on [status.points] has at least
    [n = x0.length] coordinates, and exactly [n] when [bounds] has no more
    than [n] entries. *)
Theorem recorded_points_dimension :
  Forall (fun q => (n x0 <= length q
                      <= Nat.max (n x0) (length (bounds_ options)))%nat)
         (points (snd run)).
Proof.
  assert (H0 : sized (constrain_ x0)).
  { pose proof (constrain_length options x0). cbv beta. unfold n. lia. }
  rewrite run_unfold. cbn [snd points]. constructor; [exact H0|].
  revert H0.
  generalize (Z.to_nat (maxIter_ options)) 0%Z (constrain_ x0) (basis x0) 0.
  induction n0 as [|k IH]; intros iter p u perr Hp; cbn [loop];
    destruct (iter + 1 <? maxIter_ options)%Z; try constructor.
  destruct (body_sized (iter + 1)%Z p u perr Hp) as [Hb Hnext].
  destruct (body_ (iter + 1)%Z p u perr) as [[[[p' u'] perr']|o] tr];
    cbn [fst snd] in *; [|exact Hb].
  specialize (IH (iter + 1)%Z p' u' perr' (Hnext p' u' perr' eq_refl)).
  destruct (loop_ k (iter + 1)%Z p' u' perr') as [o tr']. cbn [snd] in *.
  rewrite points_app. apply Forall_app. now split.
Qed.

(** ** The number of line searches *)

Lemma cycle_searches (iter : Z) (u : list vec) : forall idx p,
  (searches (snd (cycle_ iter u idx p)) <= length idx)%nat.
Proof.
  induction idx as [|i idx IH]; intros p; cbn [cycle]; [cbn; lia|].
  destruct (nth_error u i) as [ui|]; [|cbn; lia].
  destruct (lineSearch_ p ui) as [t|]; [|cbn; lia].
  destruct (is_zero_step t); [cbn; lia|].
  specialize (IH (constrain_ (add_step x0 t ui p))).
  destruct (cycle_ iter u idx (constrain_ (add_step x0 t ui p))) as [r tr].
  cbn [snd searches length] in *. lia.
Qed.

Lemma body_searches (iter : Z) (p : vec) (u : list vec) (perr : float) :
  (searches (snd (body_ iter p u perr)) <= n x0 + 1)%nat.
Proof.
  unfold body.
  pose proof (cycle_searches iter (reinit x0 iter u) (seq 0 (n x0)) p) as Hc.
  rewrite length_seq in Hc.
  destruct (cycle_ iter (reinit x0 iter u) (seq 0 (n x0)) p) as [[c|o] tr];
    cbn [fst snd] in *; [|lia].
  destruct (0 <? _); [|cbn [snd]; lia].
  destruct (lineSearch_ c _) as [t|]; [|cbn [snd]; rewrite searches_app; cbn; lia].
  destruct (is_zero_step t || negb (isFinite t));
    [cbn [snd]; rewrite searches_app; cbn; lia|].
  destruct (_ <? tol options); cbn [snd]; rewrite searches_app; cbn [searches];
    destruct (verbose_ options); cbn [searches]; lia.
Qed.

(** X16: for an integer [maxIter], a call makes at most
    [(maxIter - 1) * (n + 1)] line searches (none for [maxIter <= 1]): at
    most [n + 1] in each of at most [maxIter - 1] iterations. *)
Theorem line_searches_bound :
  (Z.of_nat (searches (snd run))
   <= Z.max 0 (maxIter_ options - 1) * (Z.of_nat (n x0) + 1))%Z.
Proof.
  rewrite run_unfold. cbn [snd searches].
  assert (H : forall fuel iter p u perr, (0 <= iter)%Z ->
                (Z.of_nat (searches (snd (loop_ fuel iter p u perr)))
                 <= Z.max 0 (maxIter_ options - 1 - iter) * (Z.of_nat (n x0) + 1))%Z).
  { induction fuel as [|k IH]; intros iter p u perr Hi; cbn [loop];
      destruct (iter + 1 <? maxIter_ options)%Z eqn:E;
      try (cbn [snd searches]; nia).
    apply Z.ltb_lt in E.
    pose proof (body_searches (iter + 1)%Z p u perr) as Hb.
    destruct (body_ (iter + 1)%Z p u perr) as [[[[p' u'] perr']|o] tr];
      cbn [fst snd] in *.
    - specialize (IH (iter + 1)%Z p' u' perr' ltac:(lia)).
      destruct (loop_ k (iter + 1)%Z p' u' perr') as [o tr']. cbn [snd] in *.
      rewrite searches_app. nia.
    - nia. }
  specialize (H (Z.to_nat (maxIter_ options)) 0%Z (constrain_ x0) (basis x0) 0
                ltac:(lia)).
  now rewrite Z.sub_0_r in H.
Qed.

End PowellMore.

(** * Edge cases of [minimizePowell] *)


Section PowellEdges.

Variable lineMin : (float -> float) -> option MinimizeOptions -> option float.
Variable f : vec -> float.

(** X22: for the empty starting point the call makes no line search and
    returns the clamped copy of [x0], the only point it records, whatever
    the options. *)
Theorem empty_start (options : option PowellOptions) :
  minimizePowell lineMin f [] options
  = (Returned (Some (constrain options [])), [Point (constrain options [])]).
Proof.
  unfold minimizePowell.
  assert (Hb : forall iter p u perr,
             body lineMin f [] options iter p u perr
             = (Stop (Returned (Some p)), [])) by reflexivity.
  destruct (Z.to_nat (maxIter_ options)); cbn [loop];
    destruct (0 + 1 <? maxIter_ options)%Z; rewrite ?Hb; reflexivity.
Qed.

Variable x0 : vec.
Variable options : option PowellOptions.
Variable b : bool.

Local Abbreviation options' := (withVerbose b options).

Lemma withVerbose_constrain (x : vec) : constrain options' x = constrain options x.
Proof. now destruct options as [[]|]. Qed.

Lemma withVerbose_lineSearch (p ui : vec) :
  lineSearch lineMin f x0 options' p ui = lineSearch lineMin f x0 options p ui.
Proof. now destruct options as [[]|]. Qed.

Lemma withVerbose_maxIter : maxIter_ options' = maxIter_ options.
Proof. now destruct options as [[]|]. Qed.

Lemma withVerbose_tol : tol options' = tol options.
Proof. now destruct options as [[]|]. Qed.

Lemma withVerbose_cycle (iter : Z) (u : list vec) : forall idx p,
  cycle lineMin f x0 options' iter u idx p = cycle lineMin f x0 options iter u idx p.
Proof.
  induction idx as [|i idx IH]; intros p; cbn [cycle]; [reflexivity|].
  destruct (nth_error u i) as [ui|]; [|reflexivity].
  rewrite withVerbose_lineSearch.
  destruct (lineSearch lineMin f x0 options p ui) as [t|]; [|reflexivity].
  destruct (is_zero_step t); [reflexivity|].
  now rewrite withVerbose_constrain, IH.
Qed.

Lemma drop_logs_app (tr1 tr2 : list event) :
  drop_logs (tr1 ++ tr2) = drop_logs tr1 ++ drop_logs tr2.
Proof.
  induction tr1 as [|[q| |] tr1 IH]; cbn; rewrite ?IH; reflexivity.
Qed.

Lemma withVerbose_body (iter : Z) (p : vec) (u : list vec) (perr : float) :
  fst (body lineMin f x0 options' iter p u perr)
    = fst (body lineMin f x0 options iter p u perr) /\
  drop_logs (snd (body lineMin f x0 options' iter p u perr))
    = drop_logs (snd (body lineMin f x0 options iter p u perr)).
Proof.
  unfold body. rewrite withVerbose_cycle.
  destruct (cycle lineMin f x0 options iter (reinit x0 iter u) (seq 0 (n x0)) p)
    as [[c|o] tr]; [|split; reflexivity].
  destruct (0 <? _); [|split; reflexivity].
  rewrite withVerbose_lineSearch.
  destruct (lineSearch lineMin f x0 options c _) as [t|]; [|split; reflexivity].
  destruct (is_zero_step t || negb (isFinite t)); [split; reflexivity|].
  rewrite withVerbose_constrain, withVerbose_tol.
  destruct (_ <? tol options); cbn [fst snd]; (split; [reflexivity|]);
    rewrite !drop_logs_app; cbn [drop_logs];
    destruct (verbose_ options'), (verbose_ options); reflexivity.
Qed.

(** X23: the [verbose] option changes neither what the call returns nor
    what it does apart from the log lines: the points it records and the
    line searches it makes are the same. *)
Theorem verbose_only_logs :
  fst (minimizePowell lineMin f x0 options')
    = fst (minimizePowell lineMin f x0 options) /\
  drop_logs (snd (minimizePowell lineMin f x0 options'))
    = drop_logs (snd (minimizePowell lineMin f x0 options)).
Proof.
  rewrite !run_unfold. cbn [fst snd drop_logs].
  rewrite withVerbose_constrain, withVerbose_maxIter.
  assert (H : forall fuel iter p u perr,
             fst (loop lineMin f x0 options' fuel iter p u perr)
             = fst (loop lineMin f x0 options fuel iter p u perr) /\
             drop_logs (snd (loop lineMin f x0 options' fuel iter p u perr))
             = drop_logs (snd (loop lineMin f x0 options fuel iter p u perr))).
  { induction fuel as [|k IH]; intros iter p u perr; cbn [loop];
      rewrite withVerbose_maxIter;
      destruct (iter + 1 <? maxIter_ options)%Z; try (split; reflexivity).
    destruct (withVerbose_body (iter + 1)%Z p u perr) as [H1 H2].
    destruct (body lineMin f x0 options' (iter + 1)%Z p u perr) as [r' tr'].
    destruct (body lineMin f x0 options (iter + 1)%Z p u perr) as [r tr].
    cbn [fst snd] in *. subst r'.
    destruct r as [[[p' u'] perr']|o]; [|split; [reflexivity | exact H2]].
    destruct (IH (iter + 1)%Z p' u' perr') as [I1 I2].
    destruct (loop lineMin f x0 options' k (iter + 1)%Z p' u' perr') as [o1 t1].
    destruct (loop lineMin f x0 options k (iter + 1)%Z p' u' perr') as [o2 t2].
    cbn [fst snd] in *. split; [exact I1|].
    now rewrite !drop_logs_app, H2, I2. }
  destruct (H (Z.to_nat (maxIter_ options)) 0%Z (constrain options x0) (basis x0) 0)
    as [H1 H2].
  split; [exact H1 | now rewrite H2].
Qed.

(** X21: [minimizePowell] returns [undefined] only right after a line
    search that returned [undefined]. *)
Theorem undefined_only_after_undefined_search :
  fst (minimizePowell lineMin f x0 options) = Returned None ->
  exists pre c iter u p ui,
    snd (minimizePowell lineMin f x0 options)
    = pre ++ [Search c iter u p ui None].
Proof.
  assert (Hc : forall iter u idx p,
             fst (cycle lineMin f x0 options iter u idx p) = Stop (Returned None) ->
             exists pre c it u' q ui,
               snd (cycle lineMin f x0 options iter u idx p)
               = pre ++ [Search c it u' q ui None]).
  { intros iter u. induction idx as [|i idx IH]; intros p; cbn [cycle];
      [discriminate|].
    destruct (nth_error u i) as [ui|]; [|discriminate].
    destruct (lineSearch lineMin f x0 options p ui) as [t|].
    2:{ intros _. exists [], true, iter, u, p, ui. reflexivity. }
    destruct (is_zero_step t); [discriminate|].
    specialize (IH (constrain options (add_step x0 t ui p))).
    destruct (cycle lineMin f x0 options iter u idx
                    (constrain options (add_step x0 t ui p))) as [r tr].
    cbn [fst snd] in *. intros E.
    destruct (IH E) as (pre & c & it & u' & q & ui' & ->).
    eexists (_ :: _ :: pre), c, it, u', q, ui'. reflexivity. }
  assert (Hb : forall iter p u perr,
             fst (body lineMin f x0 options iter p u perr) = Stop (Returned None) ->
             exists pre c it u' q ui,
               snd (body lineMin f x0 options iter p u perr)
               = pre ++ [Search c it u' q ui None]).
  { intros iter p u perr. unfold body.
    specialize (Hc iter (reinit x0 iter u) (seq 0 (n x0)) p).
    destruct (cycle lineMin f x0 options iter (reinit x0 iter u) (seq 0 (n x0)) p)
      as [[c|o] tr]; cbn [fst snd] in *.
    - destruct (0 <? _); [|discriminate].
      destruct (lineSearch lineMin f x0 options c _) as [t|].
      2:{ intros _. cbn [snd]. eexists tr, false, iter, _, c, _. reflexivity. }
      destruct (is_zero_step t || negb (isFinite t)); [discriminate|].
      destruct (_ <? tol options); discriminate.
    - intros E. injection E as ->. now apply Hc. }
  assert (Hl : forall fuel iter p u perr,
             fst (loop lineMin f x0 options fuel iter p u perr) = Returned None ->
             exists pre c it u' q ui,
               snd (loop lineMin f x0 options fuel iter p u perr)
               = pre ++ [Search c it u' q ui None]).
  { induction fuel as [|k IH]; intros iter p u perr; cbn [loop];
      destruct (iter + 1 <? maxIter_ options)%Z; try discriminate.
    specialize (Hb (iter + 1)%Z p u perr).
    destruct (body lineMin f x0 options (iter + 1)%Z p u perr)
      as [[[[p' u'] perr']|o] tr]; cbn [fst snd] in *.
    - specialize (IH (iter + 1)%Z p' u' perr').
      destruct (loop lineMin f x0 options k (iter + 1)%Z p' u' perr') as [o tr'].
      cbn [fst snd] in *. intros E.
      destruct (IH E) as (pre & c & it & u'' & q & ui & ->).
      exists (tr ++ pre), c, it, u'', q, ui. now rewrite app_assoc.
    - intros ->. now apply Hb. }
  rewrite run_unfold. cbn [fst snd]. intros E.
  destruct (Hl _ _ _ _ _ E) as (pre & c & it & u & q & ui & ->).
  exists (Point (constrain options x0) :: pre), c, it, u, q, ui. reflexivity.
Qed.

End PowellEdges.

(** ** Runs that show the properties above *)

(** The run from [[0.5; 0.5]] on [(x - 10)^2 + (y - 10)^2] within the unit
    square: it ends at the corner [[1; 1]] on a zero step of the extra
    search. *)
Lemma extra_search_stops_witness :
  fst (minimizePowell lineMinExample
         (fun v => (get v 0 - 10) * (get v 0 - 10) + (get v 1 - 10) * (get v 1 - 10))
         [0.5; 0.5] (withBounds [Some (0, 1); Some (0, 1)]))
  = Returned (Some [1; 1]).
Proof.
  apply (extra_search_stops lineMinExample
           (fun v => (get v 0 - 10) * (get v 0 - 10) + (get v 1 - 10) * (get v 1 - 10))
           [0.5; 0.5] (withBounds [Some (0, 1); Some (0, 1)])
           [Point [0.5; 0.5];
            Search true 1 [[1; 0]; [0; 1]] [0.5; 0.5] [1; 0] (Some 0.5);
            Point [1; 0.5];
            Search true 1 [[1; 0]; [0; 1]] [1; 0.5] [0; 1] (Some 0.5);
            Point [1; 1]]
           [] 1%Z [[0; 1]; [0.5 / sqrt 0.5; 0.5 / sqrt 0.5]] [1; 1]
           [0.5 / sqrt 0.5; 0.5 / sqrt 0.5] 0);
    vm_compute; reflexivity.
Defined.

(** The same run: the point returned is the last one recorded. *)
Lemma returned_point_is_last_recorded_witness :
  last (points (snd (minimizePowell lineMinExample
         (fun v => (get v 0 - 10) * (get v 0 - 10) + (get v 1 - 10) * (get v 1 - 10))
         [0.5; 0.5] (withBounds [Some (0, 1); Some (0, 1)])))) []
  = [1; 1].
Proof.
  apply (returned_point_is_last_recorded lineMinExample
           (fun v => (get v 0 - 10) * (get v 0 - 10) + (get v 1 - 10) * (get v 1 - 10))
           [0.5; 0.5] (withBounds [Some (0, 1); Some (0, 1)]) [1; 1]).
  vm_compute. reflexivity.
Defined.

(** The run from [[100]] on [x^2] within [[-10, 10]]. *)
Lemma returned_point_within_bounds_witness :
  exists q,
    fst (minimizePowell lineMinExample (fun v => get v 0 * get v 0) [100]
           (withBounds [Some (-10, 10)])) = Returned (Some q) /\
    within_bounds_or_nan [Some (-10, 10)] q.
Proof.
  eexists. split; [vm_compute; reflexivity|].
  apply (returned_point_within_bounds lineMinExample (fun v => get v 0 * get v 0)
           [100] (withBounds [Some (-10, 10)])).
  - intros [|i] lo hi H; cbn in H; [injection H as <- <-; reflexivity|].
    destruct i; discriminate H.
  - vm_compute. reflexivity.
Defined.

(** A NaN objective on [[0, 1]] with the asynchronous routine: the first
    line search returns [undefined] and so does the call. *)
Lemma undefined_step_returns_undefined_witness :
  fst (minimizePowell lineMinExample (fun _ => nan) [0.5] (withBounds [Some (0, 1)]))
  = Returned None.
Proof.
  apply (undefined_step_returns_undefined lineMinExample (fun _ => nan) [0.5]
           (withBounds [Some (0, 1)]) [Point [0.5]] [] true 1%Z [[1]] [0.5] [1]).
  vm_compute. reflexivity.
Defined.

(** The same run. *)
Lemma undefined_only_after_undefined_search_witness :
  exists pre c iter u p ui,
    snd (minimizePowell lineMinExample (fun _ => nan) [0.5] (withBounds [Some (0, 1)]))
    = pre ++ [Search c iter u p ui None].
Proof.
  apply (undefined_only_after_undefined_search lineMinExample (fun _ => nan) [0.5]
           (withBounds [Some (0, 1)])).
  vm_compute. reflexivity.
Defined.
